(** * A shallow embedding of the walrus-cli transfer core (package backend)

    Modelled files: [backend/client.go] (response decoding, retrieval with
    retry, storage-cost estimate), [backend/transfer.go] (cost estimate,
    single-item transfer, batch worker pool), [backend/s3client.go]
    (object filter and glob matcher) and [SimpleFs] (index loading and
    saving, [Upload], [Download]).

    Go's [int] and [int64] are both 64-bit here and are written as [Z] with
    the two's-complement wrap-around made explicit in [wrap64]; [int32]
    likewise with [wrap32]. *)

From Stdlib Require Import ZArith Lia Bool List String Ascii.
From stdpp Require Import base strings gmap list sorting.
Import ListNotations.
Open Scope Z_scope.

(* ================================================================== *)
(** ** 64-bit integers *)

Definition two63 : Z := 2 ^ 63.
Definition two64 : Z := 2 ^ 64.

(** Two's-complement wrap-around of a Go [int64] result. *)
Definition wrap64 (z : Z) : Z :=
  let m := z mod two64 in if m >=? two63 then m - two64 else m.

Definition in_int64 (z : Z) : bool := (- two63 <=? z) && (z <? two63).

Definition two31 : Z := 2 ^ 31.
Definition two32 : Z := 2 ^ 32.

(** Two's-complement wrap-around of a Go [int32] result. *)
Definition wrap32 (z : Z) : Z :=
  let m := z mod two32 in if m >=? two31 then m - two32 else m.

(** Go's [/] on integers truncates toward zero. *)
Definition go_div (a b : Z) : Z := Z.quot a b.

(* ================================================================== *)
(** ** Byte strings as used by package [strings] *)

Module GoStrings.

Fixpoint hasPrefix (s p : string) : bool :=
  match p, s with
  | EmptyString, _ => true
  | String c p', String d s' => Ascii.eqb c d && hasPrefix s' p'
  | String _ _, EmptyString => false
  end.

Definition hasSuffix (s p : string) : bool :=
  (String.length p <=? String.length s)%nat &&
  String.eqb (substring (String.length s - String.length p) (String.length p) s) p.

(** [strings.Index]: byte offset of the first occurrence, [None] for -1. *)
Fixpoint index (s p : string) : option nat :=
  if hasPrefix s p then Some 0%nat
  else match s with
       | EmptyString => None
       | String _ s' => option_map S (index s' p)
       end.

Definition contains (s p : string) : bool :=
  match index s p with Some _ => true | None => false end.

Definition containsChar (s : string) (c : ascii) : bool :=
  contains s (String c EmptyString).

(** [strings.Split(s, sep)] for a one-byte separator. *)
Fixpoint split (s : string) (sep : ascii) : list string :=
  match s with
  | EmptyString => [EmptyString]
  | String c s' =>
      match split s' sep with
      | [] => [EmptyString]
      | cur :: rest =>
          if Ascii.eqb c sep then EmptyString :: cur :: rest
          else String c cur :: rest
      end
  end.

(** [s[i:]] *)
Definition drop (i : nat) (s : string) : string :=
  substring i (String.length s - i) s.

Definition lower_ascii (c : ascii) : ascii :=
  let n := nat_of_ascii c in
  if ((65 <=? n) && (n <=? 90))%nat then ascii_of_nat (n + 32) else c.

(** [strings.ToLower], on the ASCII range. *)
Fixpoint toLower (s : string) : string :=
  match s with
  | EmptyString => EmptyString
  | String c s' => String (lower_ascii c) (toLower s')
  end.

End GoStrings.

(** [path.Base] *)
Module GoPath.

Fixpoint drop_slashes (r : list ascii) : list ascii :=
  match r with
  | c :: r' => if Ascii.eqb c "/"%char then drop_slashes r' else r
  | [] => []
  end.

(** the bytes after the last slash, of a reversed path *)
Fixpoint last_segment (r : list ascii) : list ascii :=
  match r with
  | c :: r' => if Ascii.eqb c "/"%char then [] else c :: last_segment r'
  | [] => []
  end.

Definition base (p : string) : string :=
  if String.eqb p "" then "."
  else
    let r := drop_slashes (rev (list_ascii_of_string p)) in
    let seg := rev (last_segment r) in
    if (length seg =? 0)%nat then "/" else string_of_list_ascii seg.

End GoPath.

(* ================================================================== *)
(** ** JSON values and [encoding/json] decoding into structs

    A response body that is valid JSON is a [json] tree; numbers are the
    integer literals the modelled structs accept.  [json.Unmarshal] into a
    struct: [null] leaves the target unchanged, an object sets the fields
    whose tag matches a key (exact, else ASCII case-insensitive), ignores
    unknown keys, lets a repeated key overwrite, and any other value is a
    type error.  Go keeps decoding after a type error but returns an error;
    every caller modelled here discards the value when the error is
    non-nil, so an error is [None]. *)

#[local] Set Warnings "-register-all".
Inductive json : Type :=
  | JNull
  | JBool (b : bool)
  | JNum (n : Z)
  | JStr (s : string)
  | JArr (l : list json)
  | JObj (kvs : list (string * json)).

Definition key_matches (key tag : string) : bool :=
  String.eqb (GoStrings.toLower key) (GoStrings.toLower tag).

Definition field_dec (S : Type) := json -> S -> option S.

Fixpoint decode_fields {S} (fs : list (string * field_dec S))
    (kvs : list (string * json)) (s : S) : option S :=
  match kvs with
  | [] => Some s
  | (k, v) :: rest =>
      match List.find (fun f => key_matches k (fst f)) fs with
      | Some (_, d) =>
          match d v s with
          | Some s' => decode_fields fs rest s'
          | None => None
          end
      | None => decode_fields fs rest s
      end
  end.

Definition unmarshal_struct {S} (fs : list (string * field_dec S))
    (v : json) (s : S) : option S :=
  match v with
  | JNull => Some s
  | JObj kvs => decode_fields fs kvs s
  | _ => None
  end.

(** Scalar field decoders: Go [int]/[int64] and [string]. *)
Definition dec_int (v : json) (cur : Z) : option Z :=
  match v with
  | JNull => Some cur
  | JNum n => if in_int64 n then Some n else None
  | _ => None
  end.

Definition dec_string (v : json) (cur : string) : option string :=
  match v with
  | JNull => Some cur
  | JStr s => Some s
  | _ => None
  end.

(** A [*int64]: [null] sets it to nil. *)
Definition dec_int_ptr (v : json) (cur : option Z) : option (option Z) :=
  match v with
  | JNull => Some None
  | JNum n => if in_int64 n then Some (Some n) else None
  | _ => None
  end.

(** A [json.RawMessage]: any value is kept verbatim (a present [null]
    too, as the four bytes [null]); [None] is the empty message. *)
Definition dec_raw (v : json) (cur : option json) : option (option json) :=
  Some (Some v).

Definition lift {S A} (get : S -> A) (set : A -> S -> S)
    (d : json -> A -> option A) : field_dec S :=
  fun v s => match d v (get s) with Some a => Some (set a s) | None => None end.

(* ================================================================== *)
(** ** [client.go]: store-response types *)

Record StoreResponse := mkStoreResponse {
  BlobID : string;
  EndEpoch : option Z;
  RegisteredEpoch : option Z;
  Cost : Z;
  Size : Z;
  AlreadyCertified : bool;
  SuiObjectID : string
}.

Record storeResponseEnvelope := mkEnvelope {
  env_NewlyCreated : option json;
  env_AlreadyCertified : option json;
  env_Cost : option Z
}.

Definition envelope0 : storeResponseEnvelope := mkEnvelope None None None.

Definition envelope_fields : list (string * field_dec storeResponseEnvelope) := [
  ("newlyCreated", lift env_NewlyCreated
      (fun a e => mkEnvelope a (env_AlreadyCertified e) (env_Cost e)) dec_raw);
  ("alreadyCertified", lift env_AlreadyCertified
      (fun a e => mkEnvelope (env_NewlyCreated e) a (env_Cost e)) dec_raw);
  ("cost", lift env_Cost
      (fun a e => mkEnvelope (env_NewlyCreated e) (env_AlreadyCertified e) a) dec_int_ptr)
].

Record walrusStoragePayload := mkStorage {
  sp_EndEpoch : Z;        (* json:"endEpoch" *)
  sp_EndEpochAlt : Z;     (* json:"storage_end_epoch" *)
  sp_StorageSize : Z;     (* json:"storage_size" *)
  sp_StorageSizeAlt : Z   (* json:"storageSize" *)
}.

Definition storage0 : walrusStoragePayload := mkStorage 0 0 0 0.

Definition storage_fields : list (string * field_dec walrusStoragePayload) := [
  ("endEpoch", lift sp_EndEpoch
      (fun a p => mkStorage a (sp_EndEpochAlt p) (sp_StorageSize p) (sp_StorageSizeAlt p)) dec_int);
  ("storage_end_epoch", lift sp_EndEpochAlt
      (fun a p => mkStorage (sp_EndEpoch p) a (sp_StorageSize p) (sp_StorageSizeAlt p)) dec_int);
  ("storage_size", lift sp_StorageSize
      (fun a p => mkStorage (sp_EndEpoch p) (sp_EndEpochAlt p) a (sp_StorageSizeAlt p)) dec_int);
  ("storageSize", lift sp_StorageSizeAlt
      (fun a p => mkStorage (sp_EndEpoch p) (sp_EndEpochAlt p) (sp_StorageSize p) a) dec_int)
].

(** A nested struct field decodes into the value already there. *)
Definition dec_storage (v : json) (cur : walrusStoragePayload) : option walrusStoragePayload :=
  unmarshal_struct storage_fields v cur.

(** [walrusStoragePayload.endEpoch] and [.size]: first non-zero. *)
Definition sp_endEpoch (p : walrusStoragePayload) : Z :=
  if negb (sp_EndEpoch p =? 0) then sp_EndEpoch p
  else if negb (sp_EndEpochAlt p =? 0) then sp_EndEpochAlt p
  else 0.

Definition sp_size (p : walrusStoragePayload) : Z :=
  if negb (sp_StorageSize p =? 0) then sp_StorageSize p
  else if negb (sp_StorageSizeAlt p =? 0) then sp_StorageSizeAlt p
  else 0.

(** The shared shape of [walrusNewlyCreatedModern], [walrusAlreadyCertified]
    and the inner [blobObject] of [walrusNewlyCreatedLegacy]; [blob_EndEpoch]
    and [blob_Cost] stay zero for the types without those fields. *)
Record blobFields := mkBlob {
  blob_BlobID : string;
  blob_RegisteredEpoch : Z;
  blob_EndEpoch : Z;
  blob_Storage : walrusStoragePayload;
  blob_Size : Z;
  blob_Cost : Z
}.

Definition blob0 : blobFields := mkBlob "" 0 0 storage0 0 0.

Definition set_blobID a b := mkBlob a (blob_RegisteredEpoch b) (blob_EndEpoch b) (blob_Storage b) (blob_Size b) (blob_Cost b).
Definition set_registered a b := mkBlob (blob_BlobID b) a (blob_EndEpoch b) (blob_Storage b) (blob_Size b) (blob_Cost b).
Definition set_endEpoch a b := mkBlob (blob_BlobID b) (blob_RegisteredEpoch b) a (blob_Storage b) (blob_Size b) (blob_Cost b).
Definition set_storage a b := mkBlob (blob_BlobID b) (blob_RegisteredEpoch b) (blob_EndEpoch b) a (blob_Size b) (blob_Cost b).
Definition set_size a b := mkBlob (blob_BlobID b) (blob_RegisteredEpoch b) (blob_EndEpoch b) (blob_Storage b) a (blob_Cost b).
Definition set_cost a b := mkBlob (blob_BlobID b) (blob_RegisteredEpoch b) (blob_EndEpoch b) (blob_Storage b) (blob_Size b) a.

Definition common_blob_fields : list (string * field_dec blobFields) := [
  ("blobId", lift blob_BlobID set_blobID dec_string);
  ("registeredEpoch", lift blob_RegisteredEpoch set_registered dec_int);
  ("storage", lift blob_Storage set_storage dec_storage);
  ("size", lift blob_Size set_size dec_int)
].

(** [walrusNewlyCreatedModern] *)
Definition modern_fields : list (string * field_dec blobFields) :=
  common_blob_fields ++ [("cost", lift blob_Cost set_cost dec_int)].

(** [walrusAlreadyCertified] *)
Definition certified_fields : list (string * field_dec blobFields) :=
  common_blob_fields ++ [("endEpoch", lift blob_EndEpoch set_endEpoch dec_int)].

(** The inner [blobObject] struct of [walrusNewlyCreatedLegacy]. *)
Definition blob_object_fields : list (string * field_dec blobFields) :=
  common_blob_fields.

(** [walrusNewlyCreatedLegacy]: [BlobObject] and [Cost]. *)
Record walrusNewlyCreatedLegacy := mkLegacy {
  lg_BlobObject : blobFields;
  lg_Cost : Z
}.

Definition legacy0 : walrusNewlyCreatedLegacy := mkLegacy blob0 0.

Definition legacy_fields : list (string * field_dec walrusNewlyCreatedLegacy) := [
  ("blobObject", lift lg_BlobObject (fun a l => mkLegacy a (lg_Cost l))
      (unmarshal_struct blob_object_fields));
  ("cost", lift lg_Cost (fun a l => mkLegacy (lg_BlobObject l) a) dec_int)
].

(** [resolveSize(fallback, candidates...)]: first positive candidate. *)
Fixpoint resolveSize (fallback : Z) (candidates : list Z) : Z :=
  match candidates with
  | [] => fallback
  | v :: rest => if 0 <? v then v else resolveSize fallback rest
  end.

(** The modern (flat) attempt of [parseNewlyCreated]. *)
Definition newlyCreatedModern (raw : json) (fallbackSize : Z) : option StoreResponse :=
  match unmarshal_struct modern_fields raw blob0 with
  | Some m =>
      if negb (String.eqb (blob_BlobID m) "") then
        Some (mkStoreResponse (blob_BlobID m) (Some (sp_endEpoch (blob_Storage m))) None
                (blob_Cost m)
                (resolveSize fallbackSize [sp_size (blob_Storage m); blob_Size m])
                false "")
      else None
  | None => None
  end.

(** The legacy (nested [blobObject]) attempt, shared by both parsers up
    to the [AlreadyCertified] flag. *)
Definition legacyAttempt (certified : bool) (raw : json) (fallbackSize : Z)
    : option StoreResponse :=
  match unmarshal_struct legacy_fields raw legacy0 with
  | Some l =>
      let b := lg_BlobObject l in
      if negb (String.eqb (blob_BlobID b) "") then
        Some (mkStoreResponse (blob_BlobID b) (Some (sp_endEpoch (blob_Storage b))) None
                (lg_Cost l)
                (resolveSize fallbackSize [sp_size (blob_Storage b); blob_Size b])
                certified "")
      else None
  | None => None
  end.

Definition parseNewlyCreated (raw : json) (fallbackSize : Z) : option StoreResponse :=
  match newlyCreatedModern raw fallbackSize with
  | Some r => Some r
  | None => legacyAttempt false raw fallbackSize
  end.

(** The modern attempt of [parseAlreadyCertified]: a top-level [endEpoch]
    wins, else the storage payload's. *)
Definition alreadyCertifiedModern (raw : json) (fallbackSize : Z) : option StoreResponse :=
  match unmarshal_struct certified_fields raw blob0 with
  | Some m =>
      if negb (String.eqb (blob_BlobID m) "") then
        let endEpoch :=
          if blob_EndEpoch m =? 0 then sp_endEpoch (blob_Storage m) else blob_EndEpoch m in
        Some (mkStoreResponse (blob_BlobID m) (Some endEpoch) None 0
                (resolveSize fallbackSize [sp_size (blob_Storage m); blob_Size m])
                true "")
      else None
  | None => None
  end.

Definition parseAlreadyCertified (raw : json) (fallbackSize : Z) : option StoreResponse :=
  match alreadyCertifiedModern raw fallbackSize with
  | Some r => Some r
  | None => legacyAttempt true raw fallbackSize
  end.

Definition with_cost (c : Z) (r : StoreResponse) : StoreResponse :=
  mkStoreResponse (BlobID r) (EndEpoch r) (RegisteredEpoch r) c (Size r)
    (AlreadyCertified r) (SuiObjectID r).

(** Errors of the decoder; the message text is not modelled. *)
Inductive DecodeError :=
  | ErrDecodingResponse
  | ErrUnexpectedNewlyCreated
  | ErrUnexpectedAlreadyCertified
  | ErrUnexpectedFormat.

(** [decodeStoreResponse(payload, fallbackSize)]; a body that is not
    valid JSON is [None]. *)
Definition decodeStoreResponse (payload : option json) (fallbackSize : Z)
    : StoreResponse + DecodeError :=
  match payload with
  | None => inr ErrDecodingResponse
  | Some p =>
      match unmarshal_struct envelope_fields p envelope0 with
      | None => inr ErrDecodingResponse
      | Some env =>
          let cost := match env_Cost env with Some c => c | None => 0 end in
          match env_NewlyCreated env with
          | Some nc =>
              match parseNewlyCreated nc fallbackSize with
              | Some parsed =>
                  let cost' := if cost =? 0 then Cost parsed else cost in
                  inl (with_cost cost' parsed)
              | None => inr ErrUnexpectedNewlyCreated
              end
          | None =>
              match env_AlreadyCertified env with
              | Some ac =>
                  match parseAlreadyCertified ac fallbackSize with
                  | Some parsed => inl (with_cost cost parsed)
                  | None => inr ErrUnexpectedAlreadyCertified
                  end
              | None => inr ErrUnexpectedFormat
              end
          end
      end
  end.

(** [WalrusClient.StoreBlob]: the outcome of the HTTP PUT is supplied by
    the environment.  A body is [None] when reading it fails, [Some None]
    when it is not valid JSON. *)
Inductive HttpOutcome :=
  | HttpErr (msg : string)
  | HttpResp (status : Z) (body : option (option json)).

Inductive StoreError :=
  | ErrUploadingBlob (msg : string)
  | ErrUploadStatus (status : Z)
  | ErrReadingBody
  | ErrDecode (e : DecodeError).

Definition StoreBlob (dataLen : Z) (out : HttpOutcome) : StoreResponse + StoreError :=
  match out with
  | HttpErr m => inr (ErrUploadingBlob m)
  | HttpResp status body =>
      if negb ((status =? 200) || (status =? 201)) then inr (ErrUploadStatus status)
      else match body with
           | None => inr ErrReadingBody
           | Some payload =>
               match decodeStoreResponse payload dataLen with
               | inl r => inl r
               | inr e => inr (ErrDecode e)
               end
           end
  end.

(* ================================================================== *)
(** ** [transfer.go]: cost estimate *)

(** [EstimateWalrusCost] in FROST, with Go's [int64] wrap-around; the
    function returns this total as a [float64] divided by 10^9 (WAL). *)
Definition EstimateWalrusCost_frost (sizeBytes epochs : Z) : Z :=
  let encodedSizeBytes := wrap64 (wrap64 (sizeBytes * 5) + 64 * 1024 * 1024) in
  let encodedSizeMB := go_div (wrap64 (encodedSizeBytes + 1048575)) 1048576 in
  let costPerMBPerEpoch := 55000 / 5 in
  wrap64 (wrap64 (encodedSizeMB * costPerMBPerEpoch) * epochs).

(** [WalrusClient.EstimateStorageCost] (FROST, error always nil). *)
Definition EstimateStorageCost (sizeBytes epochs : Z) : Z :=
  let encodedSizeBytes0 := wrap64 (sizeBytes * 5) in
  let fixedMetadataBytes := 64 * 1024 * 1024 in
  let encodedSizeBytes :=
    if sizeBytes <? 10 * 1024 * 1024 then fixedMetadataBytes
    else wrap64 (encodedSizeBytes0 + fixedMetadataBytes) in
  let encodedSizeMB := go_div (wrap64 (encodedSizeBytes + 1048575)) 1048576 in
  let subsidized := 55000 / 5 in
  wrap64 (wrap64 (encodedSizeMB * subsidized) * epochs).

(* ================================================================== *)
(** ** [transfer.go]: single-item transfer *)

Record EncryptionSettings := mkEncryption { Enabled : bool }.

Record TransferJob := mkJob {
  job_Bucket : string;
  job_Key : string;
  job_Size : Z;
  job_TargetName : string;
  job_Epochs : Z;
  job_EncryptionConfig : option EncryptionSettings
}.

Inductive TransferError :=
  | ErrDownload
  | ErrBuffer
  | ErrReadForEncryption
  | ErrReadData
  | ErrUpload (e : StoreError).

Record TransferResult := mkResult {
  res_SourceKey : string;
  res_TargetName : string;
  res_BlobID : string;
  res_Size : Z;
  res_Success : bool;
  res_Error : option TransferError;
  res_EstimatedCost : Z;
  res_ExpiryEpoch : option Z;
  res_RegisteredEpoch : option Z;
  res_SuiObjectID : string
}.

(** The S3 object body: its bytes, and whether reading it fails. *)
Record S3Stream := mkStream { st_data : list Byte.byte; st_fails : bool }.

Inductive DownloadOutcome :=
  | DlErr
  | DlOk (reader : S3Stream) (size : Z).

Record SimpleFileEntry := mkEntry {
  fe_BlobID : string;
  fe_Size : Z;
  fe_ModTime : Z;
  fe_ExpiryEpoch : Z
}.

Definition failed_result (job : TransferJob) (e : TransferError) : TransferResult :=
  mkResult (job_Key job) (job_TargetName job) "" (job_Size job) false (Some e)
    (EstimateWalrusCost_frost (job_Size job) (job_Epochs job)) None None "".

(** [transferSingleFile]: the result and, on success, the index entry the
    function writes (target name and entry) when a [SimpleFs] is set. *)
Definition transferSingleFile (hasSimpleFS : bool) (now : Z) (job : TransferJob)
    (dl : DownloadOutcome) (store : HttpOutcome)
    : TransferResult * option (string * SimpleFileEntry) :=
  match dl with
  | DlErr => (failed_result job ErrDownload, None)
  | DlOk reader size =>
      let buffered := job_Size job <? 100 * 1024 * 1024 in
      if buffered && st_fails reader then (failed_result job ErrBuffer, None) else
      (* after buffering, later reads come from memory and cannot fail *)
      let fails := negb buffered && st_fails reader in
      let encrypt := match job_EncryptionConfig job with
                     | Some c => Enabled c | None => false end in
      if encrypt && fails then (failed_result job ErrReadForEncryption, None) else
      let targetName := if encrypt then job_TargetName job +:+ ".sealed"
                        else job_TargetName job in
      if negb encrypt && fails then (failed_result job ErrReadData, None) else
      let data := st_data reader in
      match StoreBlob (Z.of_nat (length data)) store with
      | inr e => (failed_result job (ErrUpload e), None)
      | inl up =>
          let r := mkResult (job_Key job) (job_TargetName job) (BlobID up) (job_Size job)
                     true None (EstimateWalrusCost_frost (job_Size job) (job_Epochs job))
                     (EndEpoch up) (RegisteredEpoch up) (SuiObjectID up) in
          let expiry := match EndEpoch up with Some e => wrap64 e | None => 0 end in
          (r, if hasSimpleFS
              then Some (targetName, mkEntry (BlobID up) size now expiry)
              else None)
      end
  end.

(** [TransferSingle]: [None] when the metadata lookup fails. *)
Definition TransferSingle (dryRun hasSimpleFS : bool) (now : Z) (bucket key : string) (epochs : Z)
    (meta : option Z) (dl : DownloadOutcome) (store : HttpOutcome)
    : option TransferResult :=
  match meta with
  | None => None
  | Some objSize =>
      let job := mkJob bucket key objSize (GoPath.base key) epochs None in
      if dryRun then
        Some (mkResult key (job_TargetName job) "" objSize true None
                (EstimateWalrusCost_frost objSize epochs) None None "")
      else Some (fst (transferSingleFile hasSimpleFS now job dl store))
  end.

(* ================================================================== *)
(** ** [transfer.go]: the worker pool of [TransferBatch]

    After listing and job creation, [TransferBatch] (when not a dry run)
    fills a closed channel with the jobs and starts [tm.concurrency]
    goroutines.  Each goroutine is a small program whose steps interleave
    arbitrarily with the others'; the shared state is the channel, the
    semaphore, the cancellation flag of [ctx], the three counters and the
    [Results] slice.  [ProcessedFiles] and [FailedFiles] are [int32] and
    [ProcessedBytes] is [int64]; [atomic.AddInt32] and [atomic.AddInt64]
    wrap around.  Index writes of [transferSingleFile] touch
    state of their own and are left out. *)

Module Batch.

(** [NewTransferManager]'s clamping of the concurrency. *)
Definition clamp (concurrency : Z) : Z :=
  if concurrency <=? 0 then 1 else if 10 <? concurrency then 10 else concurrency.

(** Program counter of one worker goroutine. *)
Inductive WState :=
  | WRecv                                       (* for job := range jobChan *)
  | WSelect (job : TransferJob)                 (* select on ctx / semaphore *)
  | WRun (job : TransferJob)                    (* tm.transferSingleFile *)
  | WGot (job : TransferJob) (r : TransferResult)     (* AddInt32 ProcessedFiles *)
  | WCounted (job : TransferJob) (r : TransferResult) (* AddInt64 / AddInt32 FailedFiles *)
  | WBranched (r : TransferResult)              (* lock; append; unlock *)
  | WAppended                                   (* <-semaphore *)
  | WDone.

Record Shared := mkShared {
  jobChan : list TransferJob;
  semaphore : nat;
  cancelled : bool;
  ProcessedFiles : Z;
  ProcessedBytes : Z;
  FailedFiles : Z;
  Results : list TransferResult
}.

Definition set_chan q s := mkShared q (semaphore s) (cancelled s) (ProcessedFiles s) (ProcessedBytes s) (FailedFiles s) (Results s).
Definition set_sem n s := mkShared (jobChan s) n (cancelled s) (ProcessedFiles s) (ProcessedBytes s) (FailedFiles s) (Results s).
Definition set_cancel s := mkShared (jobChan s) (semaphore s) true (ProcessedFiles s) (ProcessedBytes s) (FailedFiles s) (Results s).
Definition incr_processed s := mkShared (jobChan s) (semaphore s) (cancelled s) (wrap32 (ProcessedFiles s + 1)) (ProcessedBytes s) (FailedFiles s) (Results s).
Definition add_bytes n s := mkShared (jobChan s) (semaphore s) (cancelled s) (ProcessedFiles s) (wrap64 (ProcessedBytes s + n)) (FailedFiles s) (Results s).
Definition incr_failed s := mkShared (jobChan s) (semaphore s) (cancelled s) (ProcessedFiles s) (ProcessedBytes s) (wrap32 (FailedFiles s + 1)) (Results s).
Definition append_result r s := mkShared (jobChan s) (semaphore s) (cancelled s) (ProcessedFiles s) (ProcessedBytes s) (FailedFiles s) (Results s ++ [r]).

Section Pool.
(** capacity of the semaphore channel: [tm.concurrency] *)
Variable cap : nat.

Inductive wstep : Shared -> WState -> Shared -> WState -> Prop :=
  | ws_recv s j q :
      jobChan s = j :: q -> wstep s WRecv (set_chan q s) (WSelect j)
  | ws_recv_closed s :
      jobChan s = [] -> wstep s WRecv s WDone
  | ws_ctx_done s j :
      cancelled s = true -> wstep s (WSelect j) s WDone
  | ws_acquire s j :
      (semaphore s < cap)%nat ->
      wstep s (WSelect j) (set_sem (S (semaphore s)) s) (WRun j)
  | ws_transfer s j fs now dl store :
      wstep s (WRun j) s (WGot j (fst (transferSingleFile fs now j dl store)))
  | ws_processed s j r :
      wstep s (WGot j r) (incr_processed s) (WCounted j r)
  | ws_success s j r :
      res_Success r = true ->
      wstep s (WCounted j r) (add_bytes (job_Size j) s) (WBranched r)
  | ws_failure s j r :
      res_Success r = false ->
      wstep s (WCounted j r) (incr_failed s) (WBranched r)
  | ws_append s r :
      wstep s (WBranched r) (append_result r s) WAppended
  | ws_release s :
      wstep s WAppended (set_sem (pred (semaphore s)) s) WRecv.

Definition Pool : Type := Shared * list WState.

(** One goroutine moves, or the caller cancels [ctx]. *)
Inductive step : Pool -> Pool -> Prop :=
  | step_worker s ws i w s' w' :
      ws !! i = Some w -> wstep s w s' w' ->
      step (s, ws) (s', <[i := w']> ws)
  | step_cancel s ws :
      step (s, ws) (set_cancel s, ws).
End Pool.

(** The pool as [TransferBatch] starts it. *)
Definition start (concurrency : Z) (jobs : list TransferJob) : Pool :=
  (mkShared jobs 0 false 0 0 0 [], repeat WRecv (Z.to_nat (clamp concurrency))).

Definition drained (p : Pool) : Prop := Forall (fun w => w = WDone) (snd p).

Definition count_failed (rs : list TransferResult) : Z :=
  Z.of_nat (length (filter (fun r => res_Success r = false) rs)).

Definition count_success (rs : list TransferResult) : Z :=
  Z.of_nat (length (filter (fun r => res_Success r = true) rs)).

(** Results a worker has counted but not yet appended. *)
Definition pending_processed (w : WState) : Z :=
  match w with WCounted _ _ | WBranched _ => 1 | _ => 0 end.

Definition pending_failed (w : WState) : Z :=
  match w with WBranched r => if res_Success r then 0 else 1 | _ => 0 end.

Definition sumw (f : WState -> Z) (ws : list WState) : Z :=
  fold_right (fun w acc => f w + acc) 0 ws.

End Batch.

(* ================================================================== *)
(** ** [client.go]: [RetrieveBlob] with retry *)

(** [isRetryableError] on the error's message (non-nil). *)
Definition retryablePatterns : list string :=
  ["connection refused"; "connection reset"; "timeout"; "temporary failure";
   "no such host"; "network is unreachable"].

Definition isRetryableError (errStr : string) : bool :=
  existsb (fun pattern => GoStrings.contains (GoStrings.toLower errStr) pattern)
    retryablePatterns.

(** The outcome of one [HTTPClient.Get]: an error, or a response whose
    body reads to bytes ([None] when reading fails). *)
Inductive GetOutcome :=
  | GetErr (msg : string)
  | GetResp (status : Z) (body : option (list Byte.byte)).

Inductive LastErr :=
  | LastNet (msg : string)
  | LastStatus (status : Z).

Inductive RetrieveError :=
  | ErrRetrievingBlob (msg : string)          (* "retrieving blob: %w" *)
  | ErrRetrievalStatus (status : Z)           (* "retrieval failed with status %d" *)
  | ErrReadingBlobData                        (* "reading blob data: %w" *)
  | ErrFailedAfter3 (last : LastErr)          (* "failed after 3 attempts: %w" *)
  | ErrFailedToRetrieve.

(** Observable actions: the sleeps and the GET requests, in order. *)
Inductive RetrieveEvent :=
  | EvSleep (seconds : Z)
  | EvGet (attempt : nat).

(** The [for attempt := 0; attempt < 3; attempt++] loop; [fetch attempt]
    is what the network answers to that attempt. *)
Fixpoint retrieve_loop (fetch : nat -> GetOutcome) (attempt fuel : nat)
    (lastErr : option LastErr) : (list Byte.byte + RetrieveError) * list RetrieveEvent :=
  match fuel with
  | O =>
      (match lastErr with
       | Some e => inr (ErrFailedAfter3 e)
       | None => inr ErrFailedToRetrieve
       end, [])
  | S fuel' =>
      let pre := (if (0 <? attempt)%nat then [EvSleep (Z.of_nat attempt * 2)] else [])
                 ++ [EvGet attempt] in
      let continue_with e :=
        let '(res, tr) := retrieve_loop fetch (S attempt) fuel' (Some e) in
        (res, pre ++ tr) in
      match fetch attempt with
      | GetErr m =>
          if isRetryableError m then continue_with (LastNet m)
          else (inr (ErrRetrievingBlob m), pre)
      | GetResp status body =>
          if (status =? 429) || (status =? 503) then continue_with (LastStatus status)
          else if negb (status =? 200) then (inr (ErrRetrievalStatus status), pre)
          else match body with
               | None => (inr ErrReadingBlobData, pre)
               | Some data => (inl data, pre)
               end
      end
  end.

Definition RetrieveBlob (fetch : nat -> GetOutcome)
    : (list Byte.byte + RetrieveError) * list RetrieveEvent :=
  retrieve_loop fetch 0 3 None.

(* ================================================================== *)
(** ** [s3client.go]: glob matching and the object filter *)

(** The multi-wildcard loop of [matchPattern]: [i] is the index of the
    part, [cur] the byte offset reached so far. *)
Fixpoint match_parts (text : string) (parts : list string) (i cur : nat) : bool :=
  match parts with
  | [] => true
  | part :: rest =>
      if String.eqb part "" then match_parts text rest (S i) cur
      else match GoStrings.index (GoStrings.drop cur text) part with
           | None => false
           | Some idx =>
               if (i =? 0)%nat && negb (idx =? 0)%nat then false
               else match_parts text rest (S i) (cur + idx + String.length part)
           end
  end.

Definition matchPattern (text pattern : string) : bool :=
  if GoStrings.containsChar pattern "*"%char then
    let parts := GoStrings.split pattern "*"%char in
    match parts with
    | [_] => String.eqb text pattern
    | [prefix; suffix] =>
        if negb (String.eqb prefix "") && negb (GoStrings.hasPrefix text prefix) then false
        else if negb (String.eqb suffix "") && negb (GoStrings.hasSuffix text suffix) then false
        else true
    | _ =>
        if negb (match_parts text parts 0 0) then false
        else
          let lastPart := List.last parts "" in
          if negb (String.eqb lastPart "") && negb (GoStrings.hasSuffix text lastPart)
          then false else true
    end
  else String.eqb text pattern.

(** Timestamps are instants on a single clock, as [Z]. *)
Record S3Object := mkObject {
  obj_Key : string;
  obj_Size : Z;
  obj_LastModified : Z;
  obj_ETag : string
}.

Record S3TransferFilter := mkFilter {
  Prefix : string;
  Include : list string;
  Exclude : list string;
  MinSize : Z;
  MaxSize : Z;
  ModifiedAfter : option Z;
  ModifiedBefore : option Z
}.

(** [shouldIncludeObject]; a nil filter is [None]. *)
Definition shouldIncludeObject (obj : S3Object) (filter : option S3TransferFilter) : bool :=
  match filter with
  | None => true
  | Some f =>
      if (0 <? MinSize f) && (obj_Size obj <? MinSize f) then false
      else if (0 <? MaxSize f) && (MaxSize f <? obj_Size obj) then false
      else if match ModifiedAfter f with
              | Some t => obj_LastModified obj <? t | None => false end then false
      else if match ModifiedBefore f with
              | Some t => t <? obj_LastModified obj | None => false end then false
      else if existsb (fun exclude => matchPattern (obj_Key obj) exclude) (Exclude f)
      then false
      else if negb (length (Include f) =? 0)%nat then
        existsb (fun include => matchPattern (obj_Key obj) include) (Include f)
      else true
  end.

(** The checks that precede the glob lists. *)
Definition passes_bounds (obj : S3Object) (f : S3TransferFilter) : bool :=
  negb ((0 <? MinSize f) && (obj_Size obj <? MinSize f)) &&
  negb ((0 <? MaxSize f) && (MaxSize f <? obj_Size obj)) &&
  negb (match ModifiedAfter f with Some t => obj_LastModified obj <? t | None => false end) &&
  negb (match ModifiedBefore f with Some t => t <? obj_LastModified obj | None => false end).

(* ================================================================== *)
(** ** [SimpleFs.LoadIndex]

    [fs.index] is a pointer to a [SimpleFileIndex] whose [Files] map may
    itself be nil: [option (option (gmap ...))].  The index document is
    described by what [os.ReadFile] and [json.Unmarshal] make of it. *)

Definition FileMap : Type := gmap string SimpleFileEntry.

Record SimpleFileIndex := mkIndex { Files : option FileMap }.

(** What [json.Unmarshal] finds in the document bytes. *)
Inductive IndexDoc :=
  | DocSyntaxError                       (* not valid JSON: nothing is decoded *)
  | DocNull                              (* the literal null *)
  | DocNotObject                         (* a JSON array, string, number or bool *)
  | DocObject (files : option (option FileMap)) (typeErr : bool).
      (* [files]: key absent / null / an object decoded to these entries;
         [typeErr]: some value had the wrong JSON type (Go decodes the
         rest and then returns an [UnmarshalTypeError]) *)

(** The backing file, as [os.ReadFile] sees it. *)
Inductive Disk :=
  | FileMissing                          (* os.IsNotExist(err) *)
  | FileUnreadable                       (* any other read error *)
  | FileContents (doc : IndexDoc).

Inductive LoadError :=
  | ErrRead
  | ErrSyntax
  | ErrUnmarshalType.

(** [json.Unmarshal(data, &fs.index)] into the current index. *)
Definition unmarshal_index (doc : IndexDoc) (cur : option SimpleFileIndex)
    : option SimpleFileIndex * option LoadError :=
  match doc with
  | DocSyntaxError => (cur, Some ErrSyntax)
  | DocNull => (None, None)
  | DocNotObject => (cur, Some ErrUnmarshalType)
  | DocObject files typeErr =>
      let base := match cur with Some i => Files i | None => None end in
      let files' := match files with
                    | None => base
                    | Some None => None
                    | Some (Some m) =>
                        match base with Some old => Some (m ∪ old) | None => Some m end
                    end in
      (Some (mkIndex files'), if typeErr then Some ErrUnmarshalType else None)
  end.

(** [LoadIndex]: the disk after the call, the new [fs.index], the error. *)
Definition LoadIndex (disk : Disk) (cur : option SimpleFileIndex)
    : Disk * option SimpleFileIndex * option LoadError :=
  match disk with
  | FileMissing => (disk, Some (mkIndex (Some ∅)), None)
  | FileUnreadable => (disk, cur, Some ErrRead)
  | FileContents doc =>
      let '(idx, err) := unmarshal_index doc cur in (disk, idx, err)
  end.

(* ================================================================== *)
(** ** [SimpleFs]: [NewSimpleFs], [SaveIndex], [Upload], [Download] *)

(** [NewSimpleFs]: the index holds an empty, non-nil [Files] map. *)
Definition NewSimpleFs_index : option SimpleFileIndex := Some (mkIndex (Some ∅)).

(** What [os.WriteFile] does to the index file: it succeeds, or it fails
    and leaves the file as the environment says. *)
Inductive WriteOutcome :=
  | WriteOk
  | WriteFailed (after : Disk).

(** *** Strings as [encoding/json] writes them

    A Go string is a byte sequence.  The encoder walks it with
    [utf8.DecodeRuneInString] and writes [\ufffd] for every byte at which
    no valid sequence starts (a decode result [(RuneError, 1)]); the other
    escapes it writes decode back to the same bytes.  [utf8_coerce] is the
    byte string the decoder reads back. *)

Definition byte_in (c : ascii) (lo hi : nat) : bool :=
  (lo <=? nat_of_ascii c)%nat && (nat_of_ascii c <=? hi)%nat.

Definition utf8_cont (c : ascii) : bool := byte_in c 128 191.

(** The 2-, 3- and 4-byte sequences [utf8.DecodeRune] accepts (no
    overlong forms, no surrogates, nothing above U+10FFFF). *)
Definition utf8_valid2 (c1 c2 : ascii) : bool := byte_in c1 194 223 && utf8_cont c2.

Definition utf8_valid3 (c1 c2 c3 : ascii) : bool :=
  ((Nat.eqb (nat_of_ascii c1) 224 && byte_in c2 160 191)
   || ((byte_in c1 225 236 || byte_in c1 238 239) && utf8_cont c2)
   || (Nat.eqb (nat_of_ascii c1) 237 && byte_in c2 128 159)) && utf8_cont c3.

Definition utf8_valid4 (c1 c2 c3 c4 : ascii) : bool :=
  ((Nat.eqb (nat_of_ascii c1) 240 && byte_in c2 144 191)
   || (byte_in c1 241 243 && utf8_cont c2)
   || (Nat.eqb (nat_of_ascii c1) 244 && byte_in c2 128 143)) && utf8_cont c3 && utf8_cont c4.

(** U+FFFD in UTF-8. *)
Definition replacement_char : string :=
  String (ascii_of_nat 239) (String (ascii_of_nat 191) (String (ascii_of_nat 189) EmptyString)).

Fixpoint utf8_coerce (s : string) : string :=
  match s with
  | EmptyString => EmptyString
  | String c r =>
      if (nat_of_ascii c <? 128)%nat then String c (utf8_coerce r) else
      match r with
      | String c2 r2 =>
          if utf8_valid2 c c2 then String c (String c2 (utf8_coerce r2)) else
          match r2 with
          | String c3 r3 =>
              if utf8_valid3 c c2 c3 then String c (String c2 (String c3 (utf8_coerce r3))) else
              match r3 with
              | String c4 r4 =>
                  if utf8_valid4 c c2 c3 c4
                  then String c (String c2 (String c3 (String c4 (utf8_coerce r4))))
                  else String.append replacement_char (utf8_coerce r)
              | EmptyString => String.append replacement_char (utf8_coerce r)
              end
          | EmptyString => String.append replacement_char (utf8_coerce r)
          end
      | EmptyString => String.append replacement_char (utf8_coerce r)
      end
  end.

(** [strings.Compare] order on byte strings, by which the encoder sorts
    map keys. *)
Fixpoint bytes_leb (a b : string) : bool :=
  match a, b with
  | EmptyString, _ => true
  | String _ _, EmptyString => false
  | String c a', String d b' =>
      if (nat_of_ascii c <? nat_of_ascii d)%nat then true
      else if (nat_of_ascii c =? nat_of_ascii d)%nat then bytes_leb a' b' else false
  end.

Definition key_le (a b : string * SimpleFileEntry) : Prop := bytes_leb a.1 b.1 = true.

#[global] Instance key_le_dec : RelDecision key_le.
Proof. intros a b. unfold key_le. apply _. Defined.

(** [time.Time.MarshalJSON] refuses years outside 0..9999.  [ModTime] is
    read as nanoseconds since the Unix epoch and the local zone of
    [time.Now] as UTC; 0000-01-01 and 10000-01-01 are these Unix seconds. *)
Definition modtime_marshals (t : Z) : bool :=
  let sec := t / 1000000000 in (-62167219200 <=? sec) && (sec <? 253402300800).

Definition encode_entry (e : SimpleFileEntry) : SimpleFileEntry :=
  mkEntry (utf8_coerce (fe_BlobID e)) (fe_Size e) (fe_ModTime e) (fe_ExpiryEpoch e).

(** The [files] object as [json.Unmarshal] reads it back: the encoder
    writes the entries sorted by key, keys and blob ids coerced; the
    decoder assigns them in that order, so of two keys that coerce to the
    same string the later one wins. *)
Definition marshal_files (m : FileMap) : FileMap :=
  list_to_map (rev (map (fun kv => (utf8_coerce kv.1, encode_entry kv.2))
                        (merge_sort key_le (map_to_list m)))).

(** [json.MarshalIndent(fs.index, "", "  ")], described, like the loader's
    input, by what [json.Unmarshal] makes of the bytes: a nil index is
    [null], a nil [Files] map is [{"files": null}], else the entries;
    [None] is the error of a [ModTime] outside years 0..9999. *)
Definition marshal_index (idx : option SimpleFileIndex) : option IndexDoc :=
  match idx with
  | None => Some DocNull
  | Some i =>
      match Files i with
      | None => Some (DocObject (Some None) false)
      | Some m =>
          if forallb (fun kv => modtime_marshals (fe_ModTime kv.2)) (map_to_list m)
          then Some (DocObject (Some (Some (marshal_files m))) false)
          else None
      end
  end.

(** [SaveIndex]: the disk afterwards and whether an error is returned; a
    marshalling error returns before the file is written. *)
Definition SaveIndex (idx : option SimpleFileIndex) (write : WriteOutcome) (disk : Disk)
    : Disk * bool :=
  match marshal_index idx with
  | None => (disk, true)
  | Some doc =>
      match write with
      | WriteOk => (FileContents doc, false)
      | WriteFailed after => (after, true)
      end
  end.

(** [Upload(name, data, epochs)]: the index and disk afterwards and the
    returned response or error.  [None] is a run-time panic: the entry is
    assigned through [fs.index.Files], which panics on a nil [fs.index]
    and on a nil map (both left by [LoadIndex] after a [null] document or
    [{"files": null}]).  The [SaveIndex] error is only logged. *)
Definition Upload (idx : option SimpleFileIndex) (disk : Disk) (name : string)
    (data : list Byte.byte) (now : Z) (store : HttpOutcome) (write : WriteOutcome)
    : option (option SimpleFileIndex * Disk * (StoreResponse + StoreError)) :=
  match StoreBlob (Z.of_nat (length data)) store with
  | inr e => Some (idx, disk, inr e)
  | inl resp =>
      let expiryEpoch := match EndEpoch resp with Some e => wrap64 e | None => 0 end in
      match idx with
      | Some (mkIndex (Some files)) =>
          let idx' := Some (mkIndex (Some (<[name := mkEntry (BlobID resp)
                          (Z.of_nat (length data)) now expiryEpoch]> files))) in
          let '(disk', _) := SaveIndex idx' write disk in
          Some (idx', disk', inl resp)
      | _ => None
      end
  end.

Inductive DownloadError :=
  | ErrNotInIndex                        (* "file not found in index" *)
  | ErrRetrieve (e : RetrieveError).

(** [Download(name)]: [fetch id] is what the network answers to the GET
    requests for blob [id]; a nil [Files] map reads as empty, a nil
    [fs.index] panics ([None]). *)
Definition Download (idx : option SimpleFileIndex) (name : string)
    (fetch : string -> nat -> GetOutcome) : option (list Byte.byte + DownloadError) :=
  match idx with
  | None => None
  | Some i =>
      match match Files i with Some m => m !! name | None => None end with
      | None => Some (inr ErrNotInIndex)
      | Some entry =>
          match fst (RetrieveBlob (fetch (fe_BlobID entry))) with
          | inl d => Some (inl d)
          | inr e => Some (inr (ErrRetrieve e))
          end
      end
  end.

(* ================================================================== *)
(** ** [transfer.go]: the job [TransferBatch] creates for a listed object *)

Definition batch_job (bucket : string) (epochs : Z) (encryptionConfig : option EncryptionSettings)
    (obj : S3Object) : TransferJob :=
  let targetName := GoPath.base (obj_Key obj) in
  let targetName := if String.eqb targetName "" then obj_Key obj else targetName in
  mkJob bucket (obj_Key obj) (obj_Size obj) targetName epochs encryptionConfig.

(* ================================================================== *)
(** * Properties *)

(* ------------------------------------------------------------------ *)
(** ** Blob identifiers of successful results *)

Lemma newlyCreatedModern_blobid raw fb r :
  newlyCreatedModern raw fb = Some r -> BlobID r <> "".
Proof.
  unfold newlyCreatedModern.
  destruct (unmarshal_struct modern_fields raw blob0) as [m|]; [|discriminate].
  destruct (String.eqb (blob_BlobID m) "") eqn:E; cbn; [discriminate|].
  intros H; injection H as <-; cbn. apply String.eqb_neq in E. exact E.
Qed.

Lemma alreadyCertifiedModern_blobid raw fb r :
  alreadyCertifiedModern raw fb = Some r -> BlobID r <> "".
Proof.
  unfold alreadyCertifiedModern.
  destruct (unmarshal_struct certified_fields raw blob0) as [m|]; [|discriminate].
  destruct (String.eqb (blob_BlobID m) "") eqn:E; cbn; [discriminate|].
  intros H; injection H as <-; cbn. apply String.eqb_neq in E. exact E.
Qed.

Lemma legacyAttempt_blobid c raw fb r :
  legacyAttempt c raw fb = Some r -> BlobID r <> "".
Proof.
  unfold legacyAttempt.
  destruct (unmarshal_struct legacy_fields raw legacy0) as [l|]; [|discriminate].
  destruct (String.eqb (blob_BlobID (lg_BlobObject l)) "") eqn:E; cbn; [discriminate|].
  intros H; injection H as <-; cbn. apply String.eqb_neq in E. exact E.
Qed.

Lemma decodeStoreResponse_blobid p fb r :
  decodeStoreResponse p fb = inl r -> BlobID r <> "".
Proof.
  unfold decodeStoreResponse.
  destruct p as [p|]; [|discriminate].
  destruct (unmarshal_struct envelope_fields p envelope0) as [env|]; [|discriminate].
  destruct (env_NewlyCreated env) as [nc|].
  - unfold parseNewlyCreated.
    destruct (newlyCreatedModern nc fb) as [m|] eqn:Em.
    + intros H; injection H as <-; cbn. exact (newlyCreatedModern_blobid _ _ _ Em).
    + destruct (legacyAttempt false nc fb) as [l|] eqn:El; [|discriminate].
      intros H; injection H as <-; cbn. exact (legacyAttempt_blobid _ _ _ _ El).
  - destruct (env_AlreadyCertified env) as [ac|]; [|discriminate].
    unfold parseAlreadyCertified.
    destruct (alreadyCertifiedModern ac fb) as [m|] eqn:Em.
    + intros H; injection H as <-; cbn. exact (alreadyCertifiedModern_blobid _ _ _ Em).
    + destruct (legacyAttempt true ac fb) as [l|] eqn:El; [|discriminate].
      intros H; injection H as <-; cbn. exact (legacyAttempt_blobid _ _ _ _ El).
Qed.

Lemma StoreBlob_blobid n out r :
  StoreBlob n out = inl r -> BlobID r <> "".
Proof.
  unfold StoreBlob. destruct out as [m|status body]; [discriminate|].
  destruct (negb ((status =? 200) || (status =? 201))); [discriminate|].
  destruct body as [payload|]; [|discriminate].
  destruct (decodeStoreResponse payload n) as [r'|e] eqn:E; [|discriminate].
  intros H; injection H as <-. exact (decodeStoreResponse_blobid _ _ _ E).
Qed.

(** Every result of [transferSingleFile] marked successful carries the
    identifier the destination returned, which is never empty. *)
Lemma transferSingleFile_success_blobid fs now job dl store :
  res_Success (fst (transferSingleFile fs now job dl store)) = true ->
  res_BlobID (fst (transferSingleFile fs now job dl store)) <> "".
Proof.
  unfold transferSingleFile.
  destruct dl as [|reader size]; [cbn; discriminate|].
  destruct ((job_Size job <? 100 * 1024 * 1024) && st_fails reader); [cbn; discriminate|].
  destruct ((match job_EncryptionConfig job with Some c => Enabled c | None => false end)
            && (negb (job_Size job <? 100 * 1024 * 1024) && st_fails reader));
    [cbn; discriminate|].
  destruct (negb (match job_EncryptionConfig job with Some c => Enabled c | None => false end)
            && (negb (job_Size job <? 100 * 1024 * 1024) && st_fails reader));
    [cbn; discriminate|].
  destruct (StoreBlob (Z.of_nat (length (st_data reader))) store) as [up|e] eqn:E;
    [|cbn; discriminate].
  intros _; cbn. exact (StoreBlob_blobid _ _ _ E).
Qed.

(** A destination answer announcing a freshly created blob. *)
Definition created_body (blob : string) : HttpOutcome :=
  HttpResp 200 (Some (Some (JObj [("newlyCreated", JObj [("blobId", JStr blob)])]))).

Definition sample_job : TransferJob :=
  mkJob "bucket" "data/a.csv" 3 "a.csv" 5 None.

(** C1 (as stated: every successful result, dry runs included, has a
    non-empty BlobID) fails: [TransferSingle] in dry-run mode returns a
    result with [Success = true] and an empty [BlobID]. *)
Lemma C1_dry_run_counterexample :
  ~ (forall dryRun fs now bucket key epochs meta dl store r,
       TransferSingle dryRun fs now bucket key epochs meta dl store = Some r ->
       res_Success r = true -> res_BlobID r <> "").
Proof.
  intros H.
  apply (H true false 0 "bucket" "data/a.csv" 5 (Some 3) DlErr (HttpErr "")
           (mkResult "data/a.csv" "a.csv" "" 3 true None
              (EstimateWalrusCost_frost 3 5) None None "")); reflexivity.
Qed.

(** C1 (amended): every result produced by a real transfer, that is by
    [transferSingleFile] as each batch worker runs it and by
    [TransferSingle] when not in dry-run mode, that is marked successful
    has a non-empty [BlobID]; a dry-run [TransferSingle] result is marked
    successful with an empty [BlobID]. *)
Theorem C1_success_blobid_nonempty :
  (forall fs now job dl store,
     res_Success (fst (transferSingleFile fs now job dl store)) = true ->
     res_BlobID (fst (transferSingleFile fs now job dl store)) <> "") /\
  (forall fs now bucket key epochs meta dl store r,
     TransferSingle false fs now bucket key epochs meta dl store = Some r ->
     res_Success r = true -> res_BlobID r <> "") /\
  (forall fs now bucket key epochs size dl store r,
     TransferSingle true fs now bucket key epochs (Some size) dl store = Some r ->
     res_Success r = true /\ res_BlobID r = "").
Proof.
  split; [|split].
  - exact transferSingleFile_success_blobid.
  - intros fs now bucket key epochs meta dl store r.
    destruct meta as [objSize|]; cbn; [|discriminate].
    intros H; injection H as <-.
    apply transferSingleFile_success_blobid.
  - intros fs now bucket key epochs size dl store r H; cbn in H.
    injection H as <-; split; reflexivity.
Qed.

Lemma C1_success_blobid_nonempty_witness :
  res_Success (fst (transferSingleFile true 0 sample_job
                      (DlOk (mkStream [] false) 3) (created_body "B7"))) = true /\
  res_BlobID (fst (transferSingleFile true 0 sample_job
                      (DlOk (mkStream [] false) 3) (created_body "B7"))) <> "" /\
  TransferSingle false true 0 "bucket" "data/a.csv" 5 (Some 3)
    (DlOk (mkStream [] false) 3) (created_body "B7")
  = Some (fst (transferSingleFile true 0 sample_job
                 (DlOk (mkStream [] false) 3) (created_body "B7"))) /\
  res_BlobID (fst (transferSingleFile true 0 sample_job
                 (DlOk (mkStream [] false) 3) (created_body "B7"))) <> "" /\
  res_Success (mkResult "data/a.csv" "a.csv" "" 3 true None
                 (EstimateWalrusCost_frost 3 5) None None "") = true.
Proof.
  split; [reflexivity|].
  split; [apply (proj1 C1_success_blobid_nonempty); reflexivity|].
  split; [reflexivity|].
  split.
  - apply (proj1 (proj2 C1_success_blobid_nonempty) true 0 "bucket" "data/a.csv" 5 (Some 3)
             (DlOk (mkStream [] false) 3) (created_body "B7")); reflexivity.
  - apply (proj2 (proj2 C1_success_blobid_nonempty) true 0 "bucket" "data/a.csv" 5 3
             DlErr (HttpErr "")); reflexivity.
Defined.

(* ------------------------------------------------------------------ *)
(** ** Decoding of the destination's answers *)

(** The body [{"alreadyCertified":{"blobId":"B1","storage":{"<k>":50}}}]. *)
Definition certified_body (epoch_key : string) : json :=
  JObj [("alreadyCertified",
         JObj [("blobId", JStr "B1"); ("storage", JObj [(epoch_key, JNum 50)])])].

(** C3 (as stated) fails: the answer with [storage.end_epoch = 50] does not
    decode to a receipt whose expiry epoch is 50. *)
Lemma C3_end_epoch_counterexample :
  ~ (exists fallback r,
       decodeStoreResponse (Some (certified_body "end_epoch")) fallback = inl r /\
       BlobID r = "B1" /\ EndEpoch r = Some 50 /\ AlreadyCertified r = true).
Proof.
  intros (fb & r & H & _ & He & _).
  cbn in H. injection H as <-. cbn in He. discriminate.
Qed.

(** C3 (amended): the answer with [storage.end_epoch = 50] decodes to a
    receipt with blob identifier "B1", [AlreadyCertified = true], expiry
    epoch 0 and the byte count sent as size, since [end_epoch] is not a
    key the decoder reads; with the key [endEpoch] (or
    [storage_end_epoch]) inside [storage] the expiry epoch is 50. *)
Theorem C3_already_certified_receipt : forall fallback : Z,
  decodeStoreResponse (Some (certified_body "end_epoch")) fallback
    = inl (mkStoreResponse "B1" (Some 0) None 0 fallback true "") /\
  decodeStoreResponse (Some (certified_body "endEpoch")) fallback
    = inl (mkStoreResponse "B1" (Some 50) None 0 fallback true "") /\
  decodeStoreResponse (Some (certified_body "storage_end_epoch")) fallback
    = inl (mkStoreResponse "B1" (Some 50) None 0 fallback true "").
Proof.
  intros fb. repeat split.
Qed.

(** A body carrying both size fields:
    [{"<outcome>":{"blobId":b,"size":n,"storage":{"storage_size":s1,"storageSize":s2}}}]. *)
Definition sized_body (outcome blob : string) (n s1 s2 : Z) : json :=
  JObj [(outcome,
         JObj [("blobId", JStr blob); ("size", JNum n);
               ("storage", JObj [("storage_size", JNum s1); ("storageSize", JNum s2)])])].

(** The same fields in the legacy nested encoding. *)
Definition sized_body_legacy (outcome blob : string) (n s1 s2 : Z) : json :=
  JObj [(outcome,
         JObj [("blobObject",
                JObj [("blobId", JStr blob); ("size", JNum n);
                      ("storage", JObj [("storage_size", JNum s1);
                                        ("storageSize", JNum s2)])])])].

(** C4 (as stated) fails: with an explicit [size] of 10 and a storage size
    of 20, the receipt's size is 20, not the explicit 10. *)
Lemma C4_size_order_counterexample :
  match decodeStoreResponse (Some (sized_body "newlyCreated" "X" 10 20 0)) 5 with
  | inl r => Size r = 20 /\ Size r <> 10
  | inr _ => False
  end.
Proof. cbn. split; [reflexivity | discriminate]. Qed.

(** The value [resolveSize] picks from the storage payload, the explicit
    size and the fallback. *)
Definition size_by_design (n s1 s2 fallback : Z) : Z :=
  let storage := if negb (s1 =? 0) then s1 else s2 in
  if 0 <? storage then storage else if 0 <? n then n else fallback.

Lemma eqb_nonempty_false (b : string) : b <> "" -> String.eqb b "" = false.
Proof. intros H. apply String.eqb_neq. exact H. Qed.

(** C4 (amended): for both outcomes and both encodings, the receipt's
    size is the storage payload's size ([storage_size], or [storageSize]
    when [storage_size] is zero) if positive, else the explicit [size]
    field if positive, else the number of bytes sent. *)
Theorem C4_size_resolution_order :
  forall (certified : bool) (b : string) (n s1 s2 fallback : Z),
    b <> "" -> in_int64 n = true -> in_int64 s1 = true -> in_int64 s2 = true ->
    let outcome := if certified then "alreadyCertified" else "newlyCreated" in
    (exists r, decodeStoreResponse (Some (sized_body outcome b n s1 s2)) fallback = inl r /\
               Size r = size_by_design n s1 s2 fallback) /\
    (exists r, decodeStoreResponse (Some (sized_body_legacy outcome b n s1 s2)) fallback = inl r /\
               Size r = size_by_design n s1 s2 fallback).
Proof.
  intros certified b n s1 s2 fb Hb Hn H1 H2 outcome.
  destruct b as [|c b']; [contradiction|].
  destruct certified; subst outcome; cbv -[in_int64]; rewrite ?Hn, ?H1, ?H2.
  all: split; (eexists; split; [reflexivity| ]).
  all: destruct s1, s2, n; reflexivity.
Qed.

Lemma C4_size_resolution_order_witness :
  ("X" <> "" /\ in_int64 10 = true /\ in_int64 20 = true /\ in_int64 0 = true) /\
  (exists r, decodeStoreResponse (Some (sized_body "newlyCreated" "X" 10 20 0)) 5 = inl r /\
             Size r = size_by_design 10 20 0 5).
Proof.
  split; [repeat split; [discriminate|..]; reflexivity|].
  exact (proj1 (C4_size_resolution_order false "X" 10 20 0 5
                  ltac:(discriminate) eq_refl eq_refl eq_refl)).
Defined.

(* ------------------------------------------------------------------ *)
(** ** Cost estimates *)

Lemma wrap64_small (z : Z) : 0 <= z < two63 -> wrap64 z = z.
Proof.
  intros Hz. unfold wrap64, two63, two64 in *.
  rewrite Z.mod_small by lia.
  destruct (z >=? 2 ^ 63) eqn:E; [apply Z.geb_le in E; lia | reflexivity].
Qed.

Lemma wrap64_add (a b : Z) : wrap64 (wrap64 a + b) = wrap64 (a + b).
Proof.
  assert (E : (wrap64 a + b) mod two64 = (a + b) mod two64).
  { unfold wrap64. destruct (a mod two64 >=? two63).
    - replace (a mod two64 - two64 + b) with ((a + b) + (- (a / two64) - 1) * two64)
        by (rewrite (Z.mod_eq a two64) by (unfold two64; lia); ring).
      apply Z_mod_plus_full.
    - replace (a mod two64 + b) with ((a + b) + (- (a / two64)) * two64)
        by (rewrite (Z.mod_eq a two64) by (unfold two64; lia); ring).
      apply Z_mod_plus_full. }
  unfold wrap64 at 1 3. rewrite E. reflexivity.
Qed.

Lemma wrap32_small (z : Z) : 0 <= z < two31 -> wrap32 z = z.
Proof.
  intros Hz. unfold wrap32, two31, two32 in *.
  rewrite Z.mod_small by lia.
  destruct (z >=? 2 ^ 31) eqn:E; [apply Z.geb_le in E; lia | reflexivity].
Qed.

Lemma wrap32_add (a b : Z) : wrap32 (wrap32 a + b) = wrap32 (a + b).
Proof.
  assert (E : (wrap32 a + b) mod two32 = (a + b) mod two32).
  { unfold wrap32. destruct (a mod two32 >=? two31).
    - replace (a mod two32 - two32 + b) with ((a + b) + (- (a / two32) - 1) * two32)
        by (rewrite (Z.mod_eq a two32) by (unfold two32; lia); ring).
      apply Z_mod_plus_full.
    - replace (a mod two32 + b) with ((a + b) + (- (a / two32)) * two32)
        by (rewrite (Z.mod_eq a two32) by (unfold two32; lia); ring).
      apply Z_mod_plus_full. }
  unfold wrap32 at 1 3. rewrite E. reflexivity.
Qed.

(** Without overflow, [EstimateWalrusCost] is ceil((5 size + 64 MiB) / MiB)
    times 11000 FROST per epoch. *)
Lemma EstimateWalrusCost_closed_form (sizeBytes epochs : Z) :
  0 <= sizeBytes <= 2 ^ 45 -> 0 <= epochs <= 2 ^ 20 ->
  EstimateWalrusCost_frost sizeBytes epochs
  = (sizeBytes * 5 + 67108864 + 1048575) / 1048576 * 11000 * epochs.
Proof.
  intros Hs He. unfold EstimateWalrusCost_frost, go_div.
  assert (two63 = 2 ^ 63) as T by reflexivity.
  rewrite (wrap64_small (sizeBytes * 5)) by lia.
  rewrite (wrap64_small (sizeBytes * 5 + 64 * 1024 * 1024)) by lia.
  rewrite (wrap64_small (sizeBytes * 5 + 64 * 1024 * 1024 + 1048575)) by lia.
  rewrite Z.quot_div_nonneg by lia.
  set (x := sizeBytes * 5 + 64 * 1024 * 1024 + 1048575).
  assert (0 <= x / 1048576) by (apply Z.div_pos; lia).
  assert (1048576 * (x / 1048576) <= x) by (apply Z.mul_div_le; lia).
  change (55000 / 5) with 11000.
  rewrite (wrap64_small (x / 1048576 * 11000)) by lia.
  rewrite wrap64_small by nia.
  reflexivity.
Qed.

(** Below 10 MiB, [EstimateStorageCost] ignores the size. *)
Lemma EstimateStorageCost_small (sizeBytes epochs : Z) :
  sizeBytes < 10 * 1024 * 1024 ->
  EstimateStorageCost sizeBytes epochs = wrap64 (704000 * epochs).
Proof.
  intros Hs. unfold EstimateStorageCost.
  replace (sizeBytes <? 10 * 1024 * 1024) with true by (symmetry; apply Z.ltb_lt; exact Hs).
  reflexivity.
Qed.

(** C5 (as stated) fails: a 1 KB and a 1 MiB input, both below the 10 MiB
    small-size threshold, get different per-item estimates at one epoch
    (715000 against 759000 FROST). *)
Lemma C5_small_sizes_counterexample :
  1024 < 10 * 1024 * 1024 /\ 1048576 < 10 * 1024 * 1024 /\
  EstimateWalrusCost_frost 1024 1 <> EstimateWalrusCost_frost 1048576 1.
Proof. split; [lia | split; [lia | vm_compute; discriminate]]. Qed.

(** C5 (amended): the estimator used for per-item accounting and previews,
    [EstimateWalrusCost], has no small-size special case: for sizes up to
    2^45 bytes and up to 2^20 epochs it is ceil((5 size + 64 MiB) / 1 MiB)
    x 11000 x epochs FROST; the size-independent cost below 10 MiB belongs
    to [EstimateStorageCost] only, where any two sizes below 10 MiB cost
    the same at a given number of epochs. *)
Theorem C5_threshold_only_in_storage_estimate :
  (forall sizeBytes epochs : Z,
     0 <= sizeBytes <= 2 ^ 45 -> 0 <= epochs <= 2 ^ 20 ->
     EstimateWalrusCost_frost sizeBytes epochs
     = (sizeBytes * 5 + 67108864 + 1048575) / 1048576 * 11000 * epochs) /\
  (forall s1 s2 epochs : Z,
     s1 < 10 * 1024 * 1024 -> s2 < 10 * 1024 * 1024 ->
     EstimateStorageCost s1 epochs = EstimateStorageCost s2 epochs).
Proof.
  split.
  - exact EstimateWalrusCost_closed_form.
  - intros s1 s2 e H1 H2.
    rewrite (EstimateStorageCost_small s1 e H1), (EstimateStorageCost_small s2 e H2).
    reflexivity.
Qed.

Lemma C5_threshold_only_in_storage_estimate_witness :
  (0 <= 1024 <= 2 ^ 45 /\ 0 <= 3 <= 2 ^ 20 /\
   EstimateWalrusCost_frost 1024 3 = (1024 * 5 + 67108864 + 1048575) / 1048576 * 11000 * 3) /\
  (1024 < 10 * 1024 * 1024 /\ 1048576 < 10 * 1024 * 1024 /\
   EstimateStorageCost 1024 3 = EstimateStorageCost 1048576 3).
Proof.
  split.
  - split; [lia | split; [lia|]].
    apply (proj1 C5_threshold_only_in_storage_estimate); lia.
  - split; [lia | split; [lia|]].
    apply (proj2 C5_threshold_only_in_storage_estimate); lia.
Defined.

(** C10 (as stated) fails: with a zero-byte input and 2^53 epochs the
    [int64] products wrap around and the estimate is negative. *)
Lemma C10_overflow_counterexample :
  EstimateWalrusCost_frost 0 (2 ^ 53) = - 2 ^ 62.
Proof. vm_compute. reflexivity. Qed.

(** C10 (amended): for sizes from 0 to 2^45 bytes and from 1 to 2^20
    epochs, the estimate is at least the metadata-only cost of
    64 MiB x 11000 FROST per epoch, hence strictly positive. *)
Theorem C10_cost_positive :
  forall sizeBytes epochs : Z,
    0 <= sizeBytes <= 2 ^ 45 -> 1 <= epochs <= 2 ^ 20 ->
    64 * 11000 * epochs <= EstimateWalrusCost_frost sizeBytes epochs /\
    0 < EstimateWalrusCost_frost sizeBytes epochs.
Proof.
  intros s e Hs He.
  rewrite EstimateWalrusCost_closed_form by lia.
  assert (64 <= (s * 5 + 67108864 + 1048575) / 1048576).
  { apply Z.div_le_lower_bound; lia. }
  split; nia.
Qed.

Lemma C10_cost_positive_witness :
  0 <= 0 <= 2 ^ 45 /\ 1 <= 1 <= 2 ^ 20 /\
  64 * 11000 * 1 <= EstimateWalrusCost_frost 0 1 /\ 0 < EstimateWalrusCost_frost 0 1.
Proof.
  split; [lia | split; [lia|]].
  apply C10_cost_positive; lia.
Defined.

(* ------------------------------------------------------------------ *)
(** ** Retrieval with retry *)

(** A failure [RetrieveBlob] retries: a retryable network error or HTTP
    429 / 503. *)
Definition transient (o : GetOutcome) : bool :=
  match o with
  | GetErr m => isRetryableError m
  | GetResp status _ => (status =? 429) || (status =? 503)
  end.

(** What a transient failure leaves in [lastErr]. *)
Definition last_error (o : GetOutcome) : LastErr :=
  match o with
  | GetErr m => LastNet m
  | GetResp status _ => LastStatus status
  end.

(** What [RetrieveBlob] returns at once for a non-transient outcome. *)
Definition attempt_result (o : GetOutcome) : list Byte.byte + RetrieveError :=
  match o with
  | GetErr m => inr (ErrRetrievingBlob m)
  | GetResp status body =>
      if negb (status =? 200) then inr (ErrRetrievalStatus status)
      else match body with None => inr ErrReadingBlobData | Some d => inl d end
  end.

(** [n] requests, the k-th preceded by a sleep of k x 2 seconds. *)
Definition retry_trace (n : nat) : list RetrieveEvent :=
  flat_map (fun k => (if (0 <? k)%nat then [EvSleep (Z.of_nat k * 2)] else []) ++ [EvGet k])
    (seq 0 n).

Lemma retrieve_loop_unfold fetch attempt fuel lastErr :
  retrieve_loop fetch attempt (S fuel) lastErr =
  let pre := (if (0 <? attempt)%nat then [EvSleep (Z.of_nat attempt * 2)] else [])
             ++ [EvGet attempt] in
  if transient (fetch attempt) then
    let '(res, tr) := retrieve_loop fetch (S attempt) fuel (Some (last_error (fetch attempt))) in
    (res, pre ++ tr)
  else (attempt_result (fetch attempt), pre).
Proof.
  cbn [retrieve_loop]. unfold transient, last_error, attempt_result.
  destruct (fetch attempt) as [m|status body].
  - destruct (isRetryableError m); reflexivity.
  - destruct ((status =? 429) || (status =? 503)); [reflexivity|].
    destruct (negb (status =? 200)); [reflexivity|].
    destruct body; reflexivity.
Qed.

Definition reset_msg : string := "read tcp 10.0.0.2:51234->10.0.0.1:443: read: connection reset by peer".

(** C6: [RetrieveBlob] makes at most 3 requests, sleeping attempt x 2
    seconds before each retry; it retries only after a transient failure
    (a network error whose message contains connection refused, connection
    reset, timeout, temporary failure, no such host or network is
    unreachable, or HTTP 429 / 503), returns any other outcome of an
    attempt at once, and wraps the last transient failure once the three
    attempts are spent.  Two "connection reset" failures followed by a
    success return the fetched bytes. *)
Theorem C6_retrieve_retry_policy :
  (forall fetch : nat -> GetOutcome,
     exists n : nat,
       (1 <= n <= 3)%nat /\
       snd (RetrieveBlob fetch) = retry_trace n /\
       (forall k : nat, (k < n - 1)%nat -> transient (fetch k) = true) /\
       (if transient (fetch (n - 1)%nat)
        then n = 3%nat /\
             fst (RetrieveBlob fetch) = inr (ErrFailedAfter3 (last_error (fetch 2%nat)))
        else fst (RetrieveBlob fetch) = attempt_result (fetch (n - 1)%nat))) /\
  (forall data : list Byte.byte,
     RetrieveBlob (fun k => if (k <? 2)%nat then GetErr reset_msg else GetResp 200 (Some data))
     = (inl data, retry_trace 3)).
Proof.
  split.
  - intros fetch. unfold RetrieveBlob.
    rewrite retrieve_loop_unfold; cbv zeta.
    destruct (transient (fetch 0%nat)) eqn:T0.
    + rewrite retrieve_loop_unfold; cbv zeta.
      destruct (transient (fetch 1%nat)) eqn:T1.
      * rewrite retrieve_loop_unfold; cbv zeta.
        destruct (transient (fetch 2%nat)) eqn:T2.
        -- exists 3%nat. cbn. rewrite T2.
           split; [lia|]. split; [reflexivity|]. split; [|split; reflexivity].
           intros k Hk. destruct k as [|[|k]]; [exact T0 | exact T1 | lia].
        -- exists 3%nat. cbn. rewrite T2.
           split; [lia|]. split; [reflexivity|]. split; [|reflexivity].
           intros k Hk. destruct k as [|[|k]]; [exact T0 | exact T1 | lia].
      * exists 2%nat. cbn. rewrite T1.
        split; [lia|]. split; [reflexivity|]. split; [|reflexivity].
        intros k Hk. destruct k as [|k]; [exact T0 | lia].
    + exists 1%nat. cbn. rewrite T0.
      split; [lia|]. split; [reflexivity|]. split; [|reflexivity].
      intros k Hk. lia.
  - intros data. vm_compute. reflexivity.
Qed.

Lemma C6_retrieve_retry_policy_witness :
  exists n : nat,
    (1 <= n <= 3)%nat /\
    snd (RetrieveBlob (fun _ => GetResp 404 None)) = retry_trace n /\
    (forall k : nat, (k < n - 1)%nat -> transient (GetResp 404 None) = true) /\
    (if transient (GetResp 404 None)
     then n = 3%nat /\
          fst (RetrieveBlob (fun _ => GetResp 404 None))
          = inr (ErrFailedAfter3 (last_error (GetResp 404 None)))
     else fst (RetrieveBlob (fun _ => GetResp 404 None)) = attempt_result (GetResp 404 None)).
Proof.
  exact (proj1 C6_retrieve_retry_policy (fun _ => GetResp 404 None)).
Defined.

(* ------------------------------------------------------------------ *)
(** ** Object filter and glob matching *)

Definition excluded_by_glob (obj : S3Object) (f : S3TransferFilter) : bool :=
  existsb (fun exclude => matchPattern (obj_Key obj) exclude) (Exclude f).

Definition included_by_glob (obj : S3Object) (f : S3TransferFilter) : bool :=
  existsb (fun include => matchPattern (obj_Key obj) include) (Include f).

(** C7: [shouldIncludeObject] is a function of the object and the filter
    alone; a matching exclude glob rejects the object whatever the include
    globs say; and with an empty include list an object is included exactly
    when it is not excluded, i.e. it passes the size and date bounds and
    matches no exclude glob. *)
Theorem C7_exclude_wins_empty_include_all :
  forall (obj : S3Object) (f : S3TransferFilter),
    (excluded_by_glob obj f = true ->
     shouldIncludeObject obj (Some f) = false) /\
    (Include f = [] ->
     shouldIncludeObject obj (Some f) = passes_bounds obj f && negb (excluded_by_glob obj f)) /\
    shouldIncludeObject obj (Some f)
    = passes_bounds obj f && negb (excluded_by_glob obj f) &&
      (if (length (Include f) =? 0)%nat then true else included_by_glob obj f).
Proof.
  intros obj f.
  assert (Hall : shouldIncludeObject obj (Some f)
    = passes_bounds obj f && negb (excluded_by_glob obj f) &&
      (if (length (Include f) =? 0)%nat then true else included_by_glob obj f)).
  { unfold shouldIncludeObject, passes_bounds, excluded_by_glob, included_by_glob.
    destruct ((0 <? MinSize f) && (obj_Size obj <? MinSize f)); [reflexivity|].
    destruct ((0 <? MaxSize f) && (MaxSize f <? obj_Size obj)); [reflexivity|].
    destruct (match ModifiedAfter f with Some t => obj_LastModified obj <? t | None => false end);
      [reflexivity|].
    destruct (match ModifiedBefore f with Some t => t <? obj_LastModified obj | None => false end);
      [reflexivity|].
    destruct (existsb (fun exclude => matchPattern (obj_Key obj) exclude) (Exclude f));
      [reflexivity|].
    destruct (length (Include f) =? 0)%nat; reflexivity. }
  split; [|split; [|exact Hall]].
  - intros Hex. rewrite Hall, Hex. rewrite andb_false_r. reflexivity.
  - intros Hinc. rewrite Hall, Hinc. cbn. rewrite andb_true_r. reflexivity.
Qed.

Lemma C7_exclude_wins_empty_include_all_witness :
  let obj := mkObject "data/b.tmp" 10 0 "" in
  let f := mkFilter "data/" ["*.tmp"] ["*.tmp"] 0 0 None None in
  excluded_by_glob obj f = true /\ shouldIncludeObject obj (Some f) = false /\
  Include (mkFilter "data/" [] ["*.tmp"] 0 0 None None) = [] /\
  shouldIncludeObject (mkObject "data/a.csv" 10 0 "") (Some (mkFilter "data/" [] ["*.tmp"] 0 0 None None))
  = passes_bounds (mkObject "data/a.csv" 10 0 "") (mkFilter "data/" [] ["*.tmp"] 0 0 None None) &&
    negb (excluded_by_glob (mkObject "data/a.csv" 10 0 "") (mkFilter "data/" [] ["*.tmp"] 0 0 None None)).
Proof.
  cbv zeta. split; [reflexivity|]. split.
  - apply (proj1 (C7_exclude_wins_empty_include_all _ _)). reflexivity.
  - split; [reflexivity|].
    apply (proj1 (proj2 (C7_exclude_wins_empty_include_all _ _))). reflexivity.
Defined.

Lemma hasPrefix_empty (s : string) : GoStrings.hasPrefix s "" = true.
Proof. destruct s; reflexivity. Qed.

Lemma containsChar_false_iff (s : string) (c : ascii) :
  GoStrings.containsChar s c = false <-> ~ In c (list_ascii_of_string s).
Proof.
  unfold GoStrings.containsChar, GoStrings.contains.
  induction s as [|d s IH]; cbn; rewrite ?hasPrefix_empty.
  - split; [intros _ H; exact H | reflexivity].
  - destruct (Ascii.eqb c d) eqn:E.
    + cbn. apply Ascii.eqb_eq in E; subst d. split; [discriminate|].
      intros H; exfalso; apply H; left; reflexivity.
    + apply Ascii.eqb_neq in E.
      destruct (GoStrings.index s (String c "")) eqn:Ei; cbn.
      * split; [discriminate|]. intros H. exfalso.
        destruct (in_dec Ascii.ascii_dec c (list_ascii_of_string s)) as [Hin|Hnin].
        -- apply H; right; exact Hin.
        -- apply (proj2 IH) in Hnin. discriminate.
      * split; [|reflexivity]. intros _ [H|H]; [congruence|].
        apply (proj1 IH eq_refl H).
Qed.

(** C9: a pattern without a ['*'] matches a text exactly when the text
    equals the pattern. *)
Theorem C9_literal_pattern_exact :
  forall text pattern : string,
    ~ In "*"%char (list_ascii_of_string pattern) ->
    (matchPattern text pattern = true <-> text = pattern).
Proof.
  intros text pattern Hno.
  apply containsChar_false_iff in Hno.
  unfold matchPattern. rewrite Hno.
  apply String.eqb_eq.
Qed.

Lemma C9_literal_pattern_exact_witness :
  ~ In "*"%char (list_ascii_of_string "data") /\
  (matchPattern "data/a.csv" "data" = true <-> "data/a.csv" = "data").
Proof.
  split.
  - apply containsChar_false_iff. reflexivity.
  - apply C9_literal_pattern_exact. apply containsChar_false_iff. reflexivity.
Defined.

(* ------------------------------------------------------------------ *)
(** ** Loading the local index *)

(** C8 (as stated) fails: a malformed index document is not treated like
    a missing one; [LoadIndex] reports the syntax error. *)
Lemma C8_malformed_counterexample :
  ~ (forall cur : option SimpleFileIndex,
       snd (LoadIndex (FileContents DocSyntaxError) cur) = None).
Proof. intros H. specialize (H None). discriminate H. Qed.

(** C8 (amended): when the index document is missing, [LoadIndex] resets
    the index to an empty one and returns no error; when it is malformed
    (not valid JSON), it returns the decoding error and leaves the
    in-memory index as it was; in every case the document itself is left
    untouched. *)
Theorem C8_load_index_missing_and_malformed :
  (forall cur : option SimpleFileIndex,
     LoadIndex FileMissing cur = (FileMissing, Some (mkIndex (Some ∅)), None)) /\
  (forall cur : option SimpleFileIndex,
     LoadIndex (FileContents DocSyntaxError) cur
     = (FileContents DocSyntaxError, cur, Some ErrSyntax)) /\
  (forall (disk : Disk) (cur : option SimpleFileIndex),
     fst (fst (LoadIndex disk cur)) = disk).
Proof.
  split; [|split].
  - intros cur; reflexivity.
  - intros cur; reflexivity.
  - intros disk cur. destruct disk as [| |doc]; [reflexivity|reflexivity|].
    cbn. destruct (unmarshal_index doc cur); reflexivity.
Qed.

(* ------------------------------------------------------------------ *)
(** ** Counters of the worker pool *)

Module BatchFacts.
Import Batch.

Definition Inv (p : Pool) : Prop :=
  ProcessedFiles (fst p)
  = wrap32 (Z.of_nat (length (Results (fst p))) + sumw pending_processed (snd p)) /\
  FailedFiles (fst p) = wrap32 (count_failed (Results (fst p)) + sumw pending_failed (snd p)).

Lemma sumw_insert (f : WState -> Z) (ws : list WState) (i : nat) (w w' : WState) :
  ws !! i = Some w -> sumw f (<[i := w']> ws) = sumw f ws - f w + f w'.
Proof.
  unfold sumw. revert i. induction ws as [|x ws IH]; intros i Hi; [discriminate|].
  destruct i as [|i].
  - cbn in Hi. injection Hi as ->. cbn [fold_right]. change (<[0%nat:=w']> (w :: ws)) with (w' :: ws).
    cbn [fold_right]. lia.
  - cbn in Hi. change (<[S i:=w']> (x :: ws)) with (x :: <[i:=w']> ws).
    cbn [fold_right]. rewrite (IH i Hi). lia.
Qed.

Lemma sumw_done (f : WState -> Z) (ws : list WState) :
  f WDone = 0 -> Forall (fun w => w = WDone) ws -> sumw f ws = 0.
Proof.
  intros Hf H. unfold sumw. induction H as [|w ws Hw _ IH]; cbn [fold_right]; [reflexivity|].
  subst w. rewrite Hf, IH. reflexivity.
Qed.

Lemma count_failed_snoc (rs : list TransferResult) (r : TransferResult) :
  count_failed (rs ++ [r]) = count_failed rs + (if res_Success r then 0 else 1).
Proof.
  unfold count_failed. rewrite filter_app, length_app.
  destruct (res_Success r) eqn:E; cbn.
  - rewrite decide_False by congruence. cbn [length]. lia.
  - rewrite decide_True by congruence. cbn [length]. lia.
Qed.

Lemma count_success_failed (rs : list TransferResult) :
  count_success rs + count_failed rs = Z.of_nat (length rs).
Proof.
  unfold count_success, count_failed.
  induction rs as [|r rs IH]; [reflexivity|].
  rewrite !filter_cons. cbn [length].
  destruct (res_Success r).
  - rewrite (decide_True (P := true = true)), (decide_False (P := true = false)) by congruence.
    cbn [length]. lia.
  - rewrite (decide_False (P := false = true)), (decide_True (P := false = false)) by congruence.
    cbn [length]. lia.
Qed.

Lemma Inv_start (concurrency : Z) (jobs : list TransferJob) :
  Inv (start concurrency jobs).
Proof.
  unfold Inv, start; cbn [fst snd ProcessedFiles FailedFiles Results].
  assert (forall f n, f WRecv = 0 -> sumw f (repeat WRecv n) = 0) as Hrep.
  { intros f n Hf. unfold sumw. induction n as [|n IH]; cbn [repeat fold_right]; [reflexivity|].
    rewrite Hf, IH. reflexivity. }
  rewrite !Hrep by reflexivity. split; reflexivity.
Qed.

Lemma Inv_step (cap : nat) (p p' : Pool) : step cap p p' -> Inv p -> Inv p'.
Proof.
  intros Hs. destruct Hs as [s ws i w s' w' Hi Hw | s ws]; unfold Inv; cbn [fst snd].
  2: { intros H; exact H. }
  rewrite (sumw_insert pending_processed ws i w w' Hi),
          (sumw_insert pending_failed ws i w w' Hi).
  intros [HP HF].
  destruct Hw; cbn -[wrap32] in *.
  all: try (rewrite count_failed_snoc, length_app; cbn [length]).
  all: try (destruct (res_Success r) eqn:ES; try discriminate).
  all: split; rewrite ?HP, ?HF, ?wrap32_add; f_equal; lia.
Qed.

Lemma Inv_reachable (cap : nat) (p0 p : Pool) :
  Inv p0 -> rtc (step cap) p0 p -> Inv p.
Proof.
  intros H0 Hr. induction Hr as [x|x y z Hxy _ IH]; [exact H0|].
  apply IH. exact (Inv_step cap x y Hxy H0).
Qed.

(** Once every worker has exited, the counters are the lengths of
    [Results] and of its unsuccessful part, modulo [int32] wrap-around. *)
Lemma counters_wrapped (concurrency : Z) (jobs : list TransferJob) (p : Pool) :
  rtc (step (Z.to_nat (clamp concurrency))) (start concurrency jobs) p -> drained p ->
  ProcessedFiles (fst p) = wrap32 (Z.of_nat (length (Results (fst p)))) /\
  FailedFiles (fst p) = wrap32 (count_failed (Results (fst p))).
Proof.
  intros Hr Hd.
  destruct (Inv_reachable _ _ _ (Inv_start concurrency jobs) Hr) as [HP HF].
  rewrite (sumw_done pending_processed _ eq_refl Hd) in HP.
  rewrite (sumw_done pending_failed _ eq_refl Hd) in HF.
  rewrite Z.add_0_r in HP, HF. split; assumption.
Qed.

Lemma step_one (s s' : Shared) (w w' : WState) :
  wstep 1 s w s' w' -> step 1 (s, [w]) (s', [w']).
Proof. intros H. exact (step_worker 1 s [w] 0 w s' w' eq_refl H). Qed.

(** A single worker whose downloads all fail works through any job list
    and comes back to [range jobChan]. *)
Lemma run_failing (jobs : list TransferJob) (s : Shared) :
  jobChan s = jobs -> semaphore s = 0%nat ->
  exists s', rtc (step 1) (s, [WRecv]) (s', [WRecv]) /\ jobChan s' = [] /\
    length (Results s') = (length (Results s) + length jobs)%nat.
Proof.
  revert s. induction jobs as [|j q IH]; intros s Hq Hsem.
  - exists s. split; [apply rtc_refl|]. split; [exact Hq | cbn [length]; lia].
  - set (r := fst (transferSingleFile false 0 j DlErr (HttpErr ""))).
    set (s1 := set_chan q s).
    set (s2 := set_sem (S (semaphore s1)) s1).
    set (s5 := append_result r (incr_failed (incr_processed s2))).
    destruct (IH (set_sem (pred (semaphore s5)) s5) eq_refl) as (s' & Hr & Hq' & Hl).
    { unfold s5, s2, s1. cbn. exact Hsem. }
    exists s'. split; [|split; [exact Hq'|]].
    + eapply rtc_l; [apply step_one, ws_recv; exact Hq|].
      eapply rtc_l; [apply step_one, ws_acquire; cbn; lia|].
      eapply rtc_l; [apply step_one, (ws_transfer _ _ _ false 0 DlErr (HttpErr ""))|].
      eapply rtc_l; [apply step_one, ws_processed|].
      eapply rtc_l; [apply step_one, ws_failure; reflexivity|].
      eapply rtc_l; [apply step_one, ws_append|].
      eapply rtc_l; [apply step_one, ws_release|].
      exact Hr.
    + rewrite Hl. unfold s5, s2, s1. cbn [Results append_result incr_failed incr_processed set_sem set_chan].
      rewrite length_app. cbn [length]. lia.
Qed.

(** [TransferBatch] with one worker on [n] copies of [sample_job], every
    download failing, drains with [n] results. *)
Lemma pool_failing_run (n : nat) :
  exists p, rtc (step (Z.to_nat (clamp 1))) (start 1 (repeat sample_job n)) p /\
    drained p /\ length (Results (fst p)) = n.
Proof.
  destruct (run_failing (repeat sample_job n) (mkShared (repeat sample_job n) 0 false 0 0 0 [])
              eq_refl eq_refl) as (s' & Hr & Hq & Hl).
  exists (s', [WDone]). split; [|split].
  - change (start 1 (repeat sample_job n))
      with (mkShared (repeat sample_job n) 0 false 0 0 0 [], [WRecv]).
    change (Z.to_nat (clamp 1)) with 1%nat.
    eapply rtc_r; [exact Hr|]. apply step_one, ws_recv_closed. exact Hq.
  - repeat constructor.
  - cbn [fst]. rewrite Hl. cbn [Results length]. apply repeat_length.
Qed.
End BatchFacts.

(* ------------------------------------------------------------------ *)
(** ** Keys and bytes of the worker pool *)

Module BatchKeys.
Import Batch.

(** The object key a worker is holding, as a job or as its result. *)
Definition inflight_keys (w : WState) : list string :=
  match w with
  | WSelect j | WRun j | WGot j _ | WCounted j _ => [job_Key j]
  | WBranched r => [res_SourceKey r]
  | _ => []
  end.

(** A worker's result belongs to the job it holds. *)
Definition wf_worker (w : WState) : Prop :=
  match w with
  | WGot j r | WCounted j r => res_SourceKey r = job_Key j /\ res_Size r = job_Size j
  | _ => True
  end.

Definition pending_bytes (w : WState) : Z :=
  match w with WBranched r => if res_Success r then res_Size r else 0 | _ => 0 end.

Definition success_bytes (rs : list TransferResult) : Z :=
  fold_right (fun r acc => (if res_Success r then res_Size r else 0) + acc) 0 rs.

Definition local_keys (s : Shared) (w : WState) : list string :=
  map job_Key (jobChan s) ++ inflight_keys w ++ map res_SourceKey (Results s).

Definition keys (p : Pool) : list string :=
  map job_Key (jobChan (fst p)) ++ flat_map inflight_keys (snd p)
  ++ map res_SourceKey (Results (fst p)).

Definition Inv2 (jobs : list TransferJob) (p : Pool) : Prop :=
  Forall wf_worker (snd p) /\
  ProcessedBytes (fst p) = wrap64 (success_bytes (Results (fst p)) + sumw pending_bytes (snd p)) /\
  keys p ⊆+ map job_Key jobs /\
  (cancelled (fst p) = false -> keys p ≡ₚ map job_Key jobs) /\
  (cancelled (fst p) = false -> In WDone (snd p) -> jobChan (fst p) = []) /\
  snd p <> [].

Lemma transferSingleFile_key_size fs now j dl store :
  res_SourceKey (fst (transferSingleFile fs now j dl store)) = job_Key j /\
  res_Size (fst (transferSingleFile fs now j dl store)) = job_Size j.
Proof.
  unfold transferSingleFile.
  repeat match goal with
         | |- context [match ?x with _ => _ end] => destruct x
         end; split; reflexivity.
Qed.

Lemma success_bytes_snoc rs r :
  success_bytes (rs ++ [r]) = success_bytes rs + (if res_Success r then res_Size r else 0).
Proof.
  unfold success_bytes. rewrite fold_right_app. cbn [fold_right].
  induction rs as [|x rs IH]; cbn [fold_right]; [lia|]. rewrite IH. lia.
Qed.

Lemma wstep_facts cap s w s' w' :
  wstep cap s w s' w' -> wf_worker w ->
  wf_worker w' /\
  (forall X, ProcessedBytes s = wrap64 (success_bytes (Results s) + pending_bytes w + X) ->
     ProcessedBytes s' = wrap64 (success_bytes (Results s') + pending_bytes w' + X)) /\
  (local_keys s' w' ≡ₚ local_keys s w \/
   (cancelled s = true /\ local_keys s' w' ⊆+ local_keys s w)) /\
  cancelled s' = cancelled s /\
  (w' = WDone -> jobChan s' = [] \/ cancelled s = true) /\
  (jobChan s = [] -> jobChan s' = []).
Proof.
  intros Hs Hw. destruct Hs;
    unfold local_keys, set_chan, set_sem, incr_processed, add_bytes, incr_failed, append_result in *;
    cbn -[success_bytes wrap64 wrap32] in *.
  - (* recv *)
    rewrite H. split; [exact I|]. split; [intros X HX; rewrite HX, ?wrap64_add; f_equal; lia|]. split.
    + left. cbn. solve_Permutation.
    + split; [reflexivity|]. split; [discriminate|]. discriminate.
  - (* recv_closed *)
    split; [exact I|]. split; [intros X HX; rewrite HX, ?wrap64_add; f_equal; lia|]. split; [left; reflexivity|].
    split; [reflexivity|]. split; [intros _; left; exact H | auto].
  - (* ctx_done *)
    split; [exact I|]. split; [intros X HX; rewrite HX, ?wrap64_add; f_equal; lia|]. split.
    + right. split; [exact H|]. apply submseteq_app; [reflexivity|].
      cbn. apply submseteq_cons. reflexivity.
    + split; [reflexivity|]. split; [intros _; right; exact H | auto].
  - (* acquire *)
    split; [exact I|]. split; [intros X HX; rewrite HX, ?wrap64_add; f_equal; lia|]. split; [left; reflexivity|].
    split; [reflexivity|]. split; [discriminate | auto].
  - (* transfer *)
    split; [apply transferSingleFile_key_size|]. split; [intros X HX; rewrite HX, ?wrap64_add; f_equal; lia|].
    split; [left; reflexivity|]. split; [reflexivity|]. split; [discriminate | auto].
  - (* processed *)
    split; [exact Hw|]. split; [intros X HX; rewrite HX, ?wrap64_add; f_equal; lia|]. split; [left; reflexivity|].
    split; [reflexivity|]. split; [discriminate | auto].
  - (* success *)
    destruct Hw as [Hk Hsz]. rewrite H. split; [exact I|]. split; [intros X HX; rewrite HX, ?wrap64_add; f_equal; lia|].
    split; [left; rewrite Hk; reflexivity|].
    split; [reflexivity|]. split; [discriminate | auto].
  - (* failure *)
    destruct Hw as [Hk Hsz]. rewrite H. split; [exact I|]. split; [intros X HX; rewrite HX, ?wrap64_add; f_equal; lia|].
    split; [left; rewrite Hk; reflexivity|].
    split; [reflexivity|]. split; [discriminate | auto].
  - (* append *)
    rewrite success_bytes_snoc. split; [exact I|]. split; [intros X HX; rewrite HX, ?wrap64_add; f_equal; lia|].
    split; [left; rewrite map_app; cbn; solve_Permutation|].
    split; [reflexivity|]. split; [discriminate | auto].
  - (* release *)
    split; [exact I|]. split; [intros X HX; rewrite HX, ?wrap64_add; f_equal; lia|]. split; [left; reflexivity|].
    split; [reflexivity|]. split; [discriminate | auto].
Qed.

Lemma flat_map_insert {A B} (f : A -> list B) (ws : list A) (i : nat) (w w' : A) :
  ws !! i = Some w ->
  flat_map f (<[i := w']> ws) ++ f w ≡ₚ flat_map f ws ++ f w'.
Proof.
  revert i. induction ws as [|x ws IH]; intros i Hi; [discriminate|].
  destruct i as [|i].
  - cbn in Hi. injection Hi as ->.
    change (<[0%nat:=w']> (w :: ws)) with (w' :: ws). cbn [flat_map].
    rewrite <- !app_assoc. solve_Permutation.
  - cbn in Hi. change (<[S i:=w']> (x :: ws)) with (x :: <[i:=w']> ws). cbn [flat_map].
    rewrite <- !app_assoc. apply Permutation_app_head. exact (IH i Hi).
Qed.

Lemma In_insert_inv {A} (x w' : A) (ws : list A) (i : nat) :
  In x (<[i := w']> ws) -> x = w' \/ In x ws.
Proof.
  revert i. induction ws as [|y ws IH]; intros i H; [destruct H|].
  destruct i as [|i].
  - change (<[0%nat:=w']> (y :: ws)) with (w' :: ws) in H.
    destruct H as [H|H]; [left; symmetry; exact H | right; right; exact H].
  - change (<[S i:=w']> (y :: ws)) with (y :: <[i:=w']> ws) in H.
    destruct H as [H|H]; [right; left; exact H|].
    destruct (IH i H) as [H'|H']; [left; exact H' | right; right; exact H'].
Qed.

Lemma keys_split (s : Shared) (ws : list WState) (i : nat) (w : WState) :
  ws !! i = Some w ->
  forall s' w', keys (s', <[i := w']> ws) ++ inflight_keys w
                ≡ₚ local_keys s' w' ++ flat_map inflight_keys ws.
Proof.
  intros Hi s' w'. unfold keys, local_keys; cbn [fst snd].
  pose proof (flat_map_insert inflight_keys ws i w w' Hi) as HF.
  rewrite <- !app_assoc. apply Permutation_app_head.
  rewrite (Permutation_app_comm (map res_SourceKey (Results s')) (inflight_keys w)).
  rewrite app_assoc, HF. solve_Permutation.
Qed.

Lemma Inv2_start (concurrency : Z) (jobs : list TransferJob) :
  Inv2 jobs (start concurrency jobs).
Proof.
  unfold Inv2, start, keys; cbn [fst snd jobChan ProcessedBytes Results cancelled].
  set (n := Z.to_nat (clamp concurrency)).
  assert (Hn : (1 <= n)%nat) by (unfold n, clamp; repeat case_match; lia).
  assert (HF : flat_map inflight_keys (repeat WRecv n) = []).
  { clear Hn. induction n as [|n IH]; [reflexivity|]. cbn. exact IH. }
  assert (HS : sumw pending_bytes (repeat WRecv n) = 0).
  { clear Hn HF. unfold sumw. induction n as [|n IH]; [reflexivity|]. cbn [repeat fold_right].
    rewrite IH. reflexivity. }
  rewrite HF, HS. cbn [map app]. rewrite !app_nil_r.
  split; [apply Forall_forall; intros w Hw; apply list_elem_of_In, repeat_spec in Hw; subst w; exact I|].
  split; [reflexivity|]. split; [reflexivity|]. split; [intros _; reflexivity|].
  split; [intros _ Hw; apply repeat_spec in Hw; discriminate|].
  destruct n; [lia|discriminate].
Qed.

Lemma Inv2_step (cap : nat) (jobs : list TransferJob) (p p' : Pool) :
  step cap p p' -> Inv2 jobs p -> Inv2 jobs p'.
Proof.
  intros Hs. destruct Hs as [s ws i w s' w' Hi Hw | s ws].
  2: { unfold Inv2, keys, set_cancel; cbn [fst snd jobChan ProcessedBytes Results cancelled].
       intros (H1 & H2 & H3 & _ & _ & H6).
       split; [exact H1|]. split; [exact H2|]. split; [exact H3|].
       split; [discriminate|]. split; [discriminate|]. exact H6. }
  intros (Hwf & HB & Hsub & Hperm & Hdone & Hne).
  pose proof (Forall_lookup_1 _ _ _ _ Hwf Hi) as Hwi.
  destruct (wstep_facts cap s w s' w' Hw Hwi) as (Hwf' & HB' & HK & Hc & Hd & Hq).
  pose proof (keys_split s ws i w Hi s' w') as HK'.
  pose proof (keys_split s ws i w Hi s w) as HK0.
  rewrite (list_insert_id ws i w Hi) in HK0.
  unfold Inv2; cbn [fst snd] in *.
  split; [apply Forall_insert; assumption|].
  split.
  { rewrite (BatchFacts.sumw_insert pending_bytes ws i w w' Hi).
    rewrite (HB' (sumw pending_bytes ws - pending_bytes w)); [f_equal; lia|].
    rewrite HB. f_equal. lia. }
  split.
  { destruct HK as [HK | [_ HK]].
    - apply (submseteq_app_inv_r _ _ (inflight_keys w)).
      rewrite HK', HK, <- HK0. apply submseteq_app; [exact Hsub | reflexivity].
    - apply (submseteq_app_inv_r _ _ (inflight_keys w)).
      rewrite HK'. transitivity (local_keys s w ++ flat_map inflight_keys ws).
      + apply submseteq_app; [exact HK | reflexivity].
      + rewrite <- HK0. apply submseteq_app; [exact Hsub | reflexivity]. }
  split.
  { intros Hc'. rewrite Hc in Hc'.
    destruct HK as [HK | [HK _]]; [|congruence].
    apply (Permutation_app_inv_r (inflight_keys w)).
    rewrite HK', HK, <- HK0, (Hperm Hc'). reflexivity. }
  split.
  { intros Hc' HD. rewrite Hc in Hc'.
    destruct (In_insert_inv _ _ _ _ HD) as [<- | HD'].
    - destruct (Hd eq_refl) as [H | H]; [exact H | congruence].
    - apply Hq. exact (Hdone Hc' HD'). }
  intros H. apply Hne. apply length_zero_iff_nil in H. rewrite length_insert in H.
  apply length_zero_iff_nil. exact H.
Qed.

Lemma Inv2_reachable (cap : nat) (jobs : list TransferJob) (p0 p : Pool) :
  Inv2 jobs p0 -> rtc (step cap) p0 p -> Inv2 jobs p.
Proof.
  intros H0 Hr. induction Hr as [x|x y z Hxy _ IH]; [exact H0|].
  apply IH. exact (Inv2_step cap jobs x y Hxy H0).
Qed.
End BatchKeys.

(** C2: once every worker goroutine of [TransferBatch] has exited, however
    their steps interleaved, whatever each transfer returned, and whether
    or not [ctx] was cancelled, the [int32] counter [ProcessedFiles] is the
    length of [Results] and [FailedFiles] the number of unsuccessful
    results, both modulo 2^32 (two's-complement wrap-around); with fewer
    than 2^31 jobs they are exactly these numbers, and [ProcessedFiles] is
    the number of successful results plus [FailedFiles].  This for every
    requested concurrency, clamped to 1..10 by [NewTransferManager]. *)
Theorem C2_counters_after_drain :
  forall (concurrency : Z) (jobs : list TransferJob) (p : Batch.Pool),
    rtc (Batch.step (Z.to_nat (Batch.clamp concurrency))) (Batch.start concurrency jobs) p ->
    Batch.drained p ->
    Batch.ProcessedFiles (fst p) = wrap32 (Z.of_nat (length (Batch.Results (fst p)))) /\
    Batch.FailedFiles (fst p) = wrap32 (Batch.count_failed (Batch.Results (fst p))) /\
    (Z.of_nat (length jobs) < two31 ->
     Batch.ProcessedFiles (fst p) = Z.of_nat (length (Batch.Results (fst p))) /\
     Batch.FailedFiles (fst p) = Batch.count_failed (Batch.Results (fst p)) /\
     Batch.ProcessedFiles (fst p)
     = Batch.count_success (Batch.Results (fst p)) + Batch.FailedFiles (fst p)).
Proof.
  intros concurrency jobs p Hr Hd.
  destruct (BatchFacts.counters_wrapped concurrency jobs p Hr Hd) as [HP HF].
  split; [exact HP|]. split; [exact HF|]. intros Hn.
  destruct (BatchKeys.Inv2_reachable _ jobs _ _ (BatchKeys.Inv2_start concurrency jobs) Hr)
    as (_ & _ & Hsub & _).
  apply submseteq_length in Hsub. unfold BatchKeys.keys in Hsub.
  rewrite !length_app, !length_map in Hsub.
  pose proof (BatchFacts.count_success_failed (Batch.Results (fst p))) as Hcs.
  assert (0 <= Batch.count_success (Batch.Results (fst p))) by (unfold Batch.count_success; lia).
  assert (0 <= Batch.count_failed (Batch.Results (fst p))) by (unfold Batch.count_failed; lia).
  rewrite wrap32_small in HP by lia. rewrite wrap32_small in HF by lia.
  split; [exact HP|]. split; [exact HF|]. rewrite HP, HF. lia.
Qed.

(** The pool after one worker has run [sample_job], whose download failed. *)
Definition drained_pool : Batch.Pool :=
  (Batch.mkShared [] 0 false 1 0 1 [failed_result sample_job ErrDownload], [Batch.WDone]).

Ltac pool_step i c :=
  eapply rtc_l; [eapply (Batch.step_worker _ _ _ i); [reflexivity | c] | cbn].

Lemma C2_counters_after_drain_witness :
  rtc (Batch.step (Z.to_nat (Batch.clamp 1))) (Batch.start 1 [sample_job]) drained_pool /\
  Batch.drained drained_pool /\ Z.of_nat (length [sample_job]) < two31 /\
  Batch.ProcessedFiles (fst drained_pool) = Z.of_nat (length (Batch.Results (fst drained_pool))) /\
  Batch.FailedFiles (fst drained_pool) = Batch.count_failed (Batch.Results (fst drained_pool)) /\
  Batch.ProcessedFiles (fst drained_pool)
  = Batch.count_success (Batch.Results (fst drained_pool)) + Batch.FailedFiles (fst drained_pool).
Proof.
  assert (Hr : rtc (Batch.step (Z.to_nat (Batch.clamp 1))) (Batch.start 1 [sample_job])
                 drained_pool).
  { unfold Batch.start. cbn.
    pool_step 0%nat ltac:(apply Batch.ws_recv; reflexivity).
    pool_step 0%nat ltac:(apply Batch.ws_acquire; cbn; lia).
    pool_step 0%nat ltac:(apply (Batch.ws_transfer _ _ _ false 0 DlErr (HttpErr ""))).
    pool_step 0%nat ltac:(apply Batch.ws_processed).
    pool_step 0%nat ltac:(apply Batch.ws_failure; reflexivity).
    pool_step 0%nat ltac:(apply Batch.ws_append).
    pool_step 0%nat ltac:(apply Batch.ws_release).
    pool_step 0%nat ltac:(apply Batch.ws_recv_closed; reflexivity).
    apply rtc_refl. }
  assert (Hd : Batch.drained drained_pool) by (repeat constructor).
  assert (Hn : Z.of_nat (length [sample_job]) < two31) by (unfold two31; cbn; lia).
  split; [exact Hr|]. split; [exact Hd|]. split; [exact Hn|].
  exact (proj2 (proj2 (C2_counters_after_drain 1 [sample_job] drained_pool Hr Hd)) Hn).
Defined.

(** The counters of C2 are exact only below 2^31: with 2^31 jobs, one
    worker and every download failing, [ProcessedFiles] wraps to -2^31
    while [Results] holds 2^31 results. *)
Lemma C2_int32_wrap_counterexample :
  ~ (forall (concurrency : Z) (jobs : list TransferJob) (p : Batch.Pool),
       rtc (Batch.step (Z.to_nat (Batch.clamp concurrency))) (Batch.start concurrency jobs) p ->
       Batch.drained p ->
       Batch.ProcessedFiles (fst p) = Z.of_nat (length (Batch.Results (fst p))) /\
       Batch.FailedFiles (fst p) = Batch.count_failed (Batch.Results (fst p)) /\
       Batch.ProcessedFiles (fst p)
       = Batch.count_success (Batch.Results (fst p)) + Batch.FailedFiles (fst p)).
Proof.
  intros H.
  destruct (BatchFacts.pool_failing_run (Z.to_nat two31)) as (p & Hr & Hd & Hl).
  destruct (H 1 _ p Hr Hd) as [HP _].
  destruct (BatchFacts.counters_wrapped 1 _ p Hr Hd) as [HW _].
  rewrite Hl, Z2Nat.id in HP, HW by (unfold two31; lia).
  rewrite HP in HW. vm_compute in HW. discriminate HW.
Qed.

(* ------------------------------------------------------------------ *)
(** ** Store receipts and the response decoder *)

Lemma resolveSize_pos (fallback : Z) (candidates : list Z) :
  0 < fallback -> 0 < resolveSize fallback candidates.
Proof.
  intros H. induction candidates as [|c cs IH]; cbn; [exact H|].
  destruct (0 <? c) eqn:E; [apply Z.ltb_lt in E; exact E | exact IH].
Qed.

Definition receipt_shape (certified : bool) (fallback : Z) (r : StoreResponse) : Prop :=
  AlreadyCertified r = certified /\ RegisteredEpoch r = None /\ SuiObjectID r = "" /\
  EndEpoch r <> None /\ (0 < fallback -> 0 < Size r).

Ltac shape_tac :=
  intros H; apply Some_inj in H; subst;
  split; [reflexivity|]; split; [reflexivity|]; split; [reflexivity|];
  split; [discriminate | apply resolveSize_pos].

Lemma legacyAttempt_shape c raw fb r :
  legacyAttempt c raw fb = Some r -> receipt_shape c fb r.
Proof.
  unfold legacyAttempt.
  destruct (unmarshal_struct legacy_fields raw legacy0) as [l|]; [|discriminate].
  destruct (negb _); [|discriminate]. shape_tac.
Qed.

Lemma parseNewlyCreated_shape raw fb r :
  parseNewlyCreated raw fb = Some r -> receipt_shape false fb r.
Proof.
  unfold parseNewlyCreated, newlyCreatedModern.
  destruct (unmarshal_struct modern_fields raw blob0) as [m|].
  - destruct (negb _); [shape_tac|apply legacyAttempt_shape].
  - apply legacyAttempt_shape.
Qed.

Lemma parseAlreadyCertified_shape raw fb r :
  parseAlreadyCertified raw fb = Some r -> receipt_shape true fb r.
Proof.
  unfold parseAlreadyCertified, alreadyCertifiedModern.
  destruct (unmarshal_struct certified_fields raw blob0) as [m|].
  - destruct (negb _); [shape_tac|apply legacyAttempt_shape].
  - apply legacyAttempt_shape.
Qed.

Lemma decodeStoreResponse_inv p fb r :
  decodeStoreResponse (Some p) fb = inl r ->
  exists env, unmarshal_struct envelope_fields p envelope0 = Some env /\
    ((exists nc parsed, env_NewlyCreated env = Some nc /\ parseNewlyCreated nc fb = Some parsed /\
        r = with_cost (if (match env_Cost env with Some c => c | None => 0 end) =? 0
                       then Cost parsed else match env_Cost env with Some c => c | None => 0 end)
                      parsed) \/
     (env_NewlyCreated env = None /\
      exists ac parsed, env_AlreadyCertified env = Some ac /\
        parseAlreadyCertified ac fb = Some parsed /\
        r = with_cost (match env_Cost env with Some c => c | None => 0 end) parsed)).
Proof.
  unfold decodeStoreResponse.
  destruct (unmarshal_struct envelope_fields p envelope0) as [env|]; [|discriminate].
  intros H; exists env; split; [reflexivity|].
  destruct (env_NewlyCreated env) as [nc|] eqn:En.
  - destruct (parseNewlyCreated nc fb) as [parsed|] eqn:Ep; [|discriminate].
    injection H as <-. left. exists nc, parsed. auto.
  - destruct (env_AlreadyCertified env) as [ac|] eqn:Ea; [|discriminate].
    destruct (parseAlreadyCertified ac fb) as [parsed|] eqn:Ep; [|discriminate].
    injection H as <-. right. split; [reflexivity|]. exists ac, parsed. auto.
Qed.

Lemma decodeStoreResponse_shape p fb r :
  decodeStoreResponse (Some p) fb = inl r ->
  receipt_shape (AlreadyCertified r) fb r.
Proof.
  intros H. destruct (decodeStoreResponse_inv p fb r H)
    as (env & _ & [(nc & parsed & _ & Hp & ->) | (_ & ac & parsed & _ & Hp & ->)]).
  - destruct (parseNewlyCreated_shape _ _ _ Hp) as (H1 & H2 & H3 & H4 & H5).
    unfold receipt_shape, with_cost; cbn. auto.
  - destruct (parseAlreadyCertified_shape _ _ _ Hp) as (H1 & H2 & H3 & H4 & H5).
    unfold receipt_shape, with_cost; cbn. auto.
Qed.

(** A store receipt returned by [StoreBlob] never carries a registered
    epoch or a Sui object id, always carries an end epoch, and has a
    positive size whenever the uploaded data is non-empty; so a successful
    [transferSingleFile] result has no registered epoch, an empty Sui
    object id and an expiry epoch. *)
Theorem StoreBlob_receipt_fields :
  (forall (dataLen : Z) (out : HttpOutcome) (r : StoreResponse),
     StoreBlob dataLen out = inl r ->
     RegisteredEpoch r = None /\ SuiObjectID r = "" /\ EndEpoch r <> None /\
     (0 < dataLen -> 0 < Size r)) /\
  (forall fs now job dl store,
     res_Success (fst (transferSingleFile fs now job dl store)) = true ->
     res_RegisteredEpoch (fst (transferSingleFile fs now job dl store)) = None /\
     res_SuiObjectID (fst (transferSingleFile fs now job dl store)) = "" /\
     res_ExpiryEpoch (fst (transferSingleFile fs now job dl store)) <> None).
Proof.
  assert (HS : forall dataLen out r, StoreBlob dataLen out = inl r ->
     RegisteredEpoch r = None /\ SuiObjectID r = "" /\ EndEpoch r <> None /\
     (0 < dataLen -> 0 < Size r)).
  { intros n out r. unfold StoreBlob. destruct out as [m|status body]; [discriminate|].
    destruct (negb _); [discriminate|].
    destruct body as [payload|]; [|discriminate].
    destruct payload as [p|]; [|discriminate].
    destruct (decodeStoreResponse (Some p) n) as [r'|e] eqn:E; [|discriminate].
    intros H; injection H as <-.
    destruct (decodeStoreResponse_shape _ _ _ E) as (_ & H2 & H3 & H4 & H5). auto. }
  split; [exact HS|].
  intros fs now job dl store.
  unfold transferSingleFile.
  destruct dl as [|reader size]; [cbn; discriminate|].
  destruct ((job_Size job <? 100 * 1024 * 1024) && st_fails reader); [cbn; discriminate|].
  destruct ((match job_EncryptionConfig job with Some c => Enabled c | None => false end)
            && (negb (job_Size job <? 100 * 1024 * 1024) && st_fails reader));
    [cbn; discriminate|].
  destruct (negb (match job_EncryptionConfig job with Some c => Enabled c | None => false end)
            && (negb (job_Size job <? 100 * 1024 * 1024) && st_fails reader));
    [cbn; discriminate|].
  destruct (StoreBlob (Z.of_nat (length (st_data reader))) store) as [up|e] eqn:E;
    [|cbn; discriminate].
  intros _; cbn. destruct (HS _ _ _ E) as (H1 & H2 & H3 & _). auto.
Qed.

(** A three-byte object and the receipt the destination gives for it. *)
Definition ok_reader : S3Stream := mkStream [Byte.x00; Byte.x01; Byte.x02] false.

Definition ok_receipt : StoreResponse := mkStoreResponse "b" (Some 0) None 0 3 false "".

Lemma StoreBlob_receipt_fields_witness :
  (StoreBlob 3 (created_body "b") = inl ok_receipt /\
   (RegisteredEpoch ok_receipt = None /\ SuiObjectID ok_receipt = "" /\
    EndEpoch ok_receipt <> None /\ (0 < 3 -> 0 < Size ok_receipt))) /\
  (res_Success (fst (transferSingleFile true 0 sample_job (DlOk ok_reader 3) (created_body "b")))
     = true /\
   (res_RegisteredEpoch (fst (transferSingleFile true 0 sample_job (DlOk ok_reader 3)
                                (created_body "b"))) = None /\
    res_SuiObjectID (fst (transferSingleFile true 0 sample_job (DlOk ok_reader 3)
                            (created_body "b"))) = "" /\
    res_ExpiryEpoch (fst (transferSingleFile true 0 sample_job (DlOk ok_reader 3)
                            (created_body "b"))) <> None)).
Proof.
  assert (H1 : StoreBlob 3 (created_body "b") = inl ok_receipt) by reflexivity.
  assert (H2 : res_Success (fst (transferSingleFile true 0 sample_job (DlOk ok_reader 3)
                                   (created_body "b"))) = true) by reflexivity.
  split; (split; [assumption|]).
  - exact (proj1 StoreBlob_receipt_fields 3 _ _ H1).
  - exact (proj2 StoreBlob_receipt_fields _ _ _ _ _ H2).
Defined.

(** A decoded receipt is marked already-certified exactly when the body
    has no [newlyCreated] key; when that key is present but its value does
    not parse, decoding fails even if [alreadyCertified] would parse. *)
Theorem decodeStoreResponse_outcome_precedence :
  (forall (p : json) (fb : Z) (r : StoreResponse),
     decodeStoreResponse (Some p) fb = inl r ->
     (AlreadyCertified r = true <->
      exists env, unmarshal_struct envelope_fields p envelope0 = Some env /\
                  env_NewlyCreated env = None)) /\
  (forall (p : json) (fb : Z) (env : storeResponseEnvelope) (nc : json),
     unmarshal_struct envelope_fields p envelope0 = Some env ->
     env_NewlyCreated env = Some nc -> parseNewlyCreated nc fb = None ->
     decodeStoreResponse (Some p) fb = inr ErrUnexpectedNewlyCreated).
Proof.
  split.
  - intros p fb r H.
    destruct (decodeStoreResponse_inv p fb r H)
      as (env & Henv & [(nc & parsed & Hn & Hp & ->) | (Hn & ac & parsed & _ & Hp & ->)]).
    + destruct (parseNewlyCreated_shape _ _ _ Hp) as (Hc & _).
      unfold with_cost; cbn. rewrite Hc. split; [discriminate|].
      intros (env' & Henv' & Hn'). rewrite Henv in Henv'. injection Henv' as <-. congruence.
    + destruct (parseAlreadyCertified_shape _ _ _ Hp) as (Hc & _).
      unfold with_cost; cbn. rewrite Hc. split; [intros _; exists env; auto | reflexivity].
  - intros p fb env nc Henv Hn Hp. unfold decodeStoreResponse.
    rewrite Henv. cbn zeta. rewrite Hn, Hp. reflexivity.
Qed.

(** The cost of a decoded receipt is the body's top-level [cost] whenever
    that is present and non-zero; for an already-certified receipt it is
    the top-level [cost], or 0 when absent, whatever the inner object says. *)
Theorem decodeStoreResponse_cost :
  forall (p : json) (fb : Z) (r : StoreResponse) (env : storeResponseEnvelope),
    decodeStoreResponse (Some p) fb = inl r ->
    unmarshal_struct envelope_fields p envelope0 = Some env ->
    (forall c, env_Cost env = Some c -> c <> 0 -> Cost r = c) /\
    (AlreadyCertified r = true ->
     Cost r = match env_Cost env with Some c => c | None => 0 end).
Proof.
  intros p fb r env H Henv.
  destruct (decodeStoreResponse_inv p fb r H)
    as (env' & Henv' & [(nc & parsed & Hn & Hp & ->) | (Hn & ac & parsed & _ & Hp & ->)]);
    rewrite Henv in Henv'; injection Henv' as <-.
  - destruct (parseNewlyCreated_shape _ _ _ Hp) as (Hc & _).
    unfold with_cost; cbn. rewrite Hc. split; [|discriminate].
    intros c Hc' Hnz. rewrite Hc'. apply Z.eqb_neq in Hnz. rewrite Hnz. reflexivity.
  - unfold with_cost; cbn. split; [|reflexivity].
    intros c Hc' _. rewrite Hc'. reflexivity.
Qed.




(** An answer with both outcome keys, [newlyCreated] being [null]. *)
Definition both_body : json :=
  JObj [("newlyCreated", JNull); ("alreadyCertified", JObj [("blobId", JStr "b")])].

Definition certified_only_body : json :=
  JObj [("alreadyCertified", JObj [("blobId", JStr "b")])].

Lemma decodeStoreResponse_outcome_precedence_witness :
  (decodeStoreResponse (Some certified_only_body) 3
     = inl (mkStoreResponse "b" (Some 0) None 0 3 true "") /\
   (AlreadyCertified (mkStoreResponse "b" (Some 0) None 0 3 true "") = true <->
    exists env, unmarshal_struct envelope_fields certified_only_body envelope0 = Some env /\
                env_NewlyCreated env = None)) /\
  (unmarshal_struct envelope_fields both_body envelope0
     = Some (mkEnvelope (Some JNull) (Some (JObj [("blobId", JStr "b")])) None) /\
   parseNewlyCreated JNull 3 = None /\
   decodeStoreResponse (Some both_body) 3 = inr ErrUnexpectedNewlyCreated).
Proof.
  assert (H1 : decodeStoreResponse (Some certified_only_body) 3
               = inl (mkStoreResponse "b" (Some 0) None 0 3 true "")) by reflexivity.
  assert (H2 : unmarshal_struct envelope_fields both_body envelope0
               = Some (mkEnvelope (Some JNull) (Some (JObj [("blobId", JStr "b")])) None))
    by reflexivity.
  assert (H3 : parseNewlyCreated JNull 3 = None) by reflexivity.
  split; [split; [exact H1 | exact (proj1 decodeStoreResponse_outcome_precedence _ _ _ H1)]|].
  split; [exact H2|]. split; [exact H3|].
  exact (proj2 decodeStoreResponse_outcome_precedence _ _ _ JNull H2 eq_refl H3).
Defined.

Definition certified_cost_body : json :=
  JObj [("alreadyCertified", JObj [("blobId", JStr "b"); ("cost", JNum 9)]); ("cost", JNum 7)].

Lemma decodeStoreResponse_cost_witness :
  decodeStoreResponse (Some certified_cost_body) 3
    = inl (mkStoreResponse "b" (Some 0) None 7 3 true "") /\
  unmarshal_struct envelope_fields certified_cost_body envelope0
    = Some (mkEnvelope None (Some (JObj [("blobId", JStr "b"); ("cost", JNum 9)])) (Some 7)) /\
  (forall c, Some 7 = Some c -> c <> 0 -> 7 = c) /\
  (true = true -> 7 = 7).
Proof.
  assert (H1 : decodeStoreResponse (Some certified_cost_body) 3
               = inl (mkStoreResponse "b" (Some 0) None 7 3 true "")) by reflexivity.
  assert (H2 : unmarshal_struct envelope_fields certified_cost_body envelope0
               = Some (mkEnvelope None (Some (JObj [("blobId", JStr "b"); ("cost", JNum 9)]))
                         (Some 7))) by reflexivity.
  split; [exact H1|]. split; [exact H2|].
  exact (decodeStoreResponse_cost _ _ _ _ H1 H2).
Defined.


(* ------------------------------------------------------------------ *)
(** ** Target names and cost estimates *)

Lemma last_segment_no_slash (r : list ascii) : ~ In "/"%char (GoPath.last_segment r).
Proof.
  induction r as [|c r IH]; cbn; [tauto|].
  destruct (Ascii.eqb c "/") eqn:E; cbn; [tauto|].
  intros [H|H]; [subst c; discriminate | exact (IH H)].
Qed.

(** The target name of every job [TransferBatch] creates is [path.Base] of
    the object key, which is never empty and contains no slash unless it
    is exactly ["/"]; the fallback to the full key never applies. *)
Theorem base_never_empty :
  forall (bucket : string) (epochs : Z) (enc : option EncryptionSettings) (obj : S3Object),
    job_TargetName (batch_job bucket epochs enc obj) = GoPath.base (obj_Key obj) /\
    GoPath.base (obj_Key obj) <> "" /\
    (GoPath.base (obj_Key obj) = "/" \/
     ~ In "/"%char (list_ascii_of_string (GoPath.base (obj_Key obj)))).
Proof.
  intros bucket epochs enc obj.
  assert (Hb : forall p, GoPath.base p <> "" /\
             (GoPath.base p = "/" \/ ~ In "/"%char (list_ascii_of_string (GoPath.base p)))).
  { intros p. unfold GoPath.base.
    destruct (String.eqb p "") eqn:Ep.
    - split; [discriminate|]. right. cbn. intros [H|H]; [discriminate|exact H].
    - cbn zeta.
      set (seg := rev (GoPath.last_segment (GoPath.drop_slashes (rev (list_ascii_of_string p))))).
      destruct (length seg =? 0)%nat eqn:El.
      + split; [discriminate|left; reflexivity].
      + apply Nat.eqb_neq in El. split.
        * intros H. apply El. rewrite <- (list_ascii_of_string_of_list_ascii seg), H. reflexivity.
        * right. rewrite list_ascii_of_string_of_list_ascii. unfold seg.
          rewrite <- in_rev. apply last_segment_no_slash. }
  unfold batch_job. cbn [job_TargetName].
  destruct (Hb (obj_Key obj)) as [Hne Hs].
  apply String.eqb_neq in Hne. rewrite Hne. apply String.eqb_neq in Hne.
  auto.
Qed.

Lemma drop_slashes_head (c : ascii) (l : list ascii) :
  c <> "/"%char -> GoPath.drop_slashes (c :: l) = c :: l.
Proof.
  intros H. cbn. destruct (Ascii.eqb c "/") eqn:E; [apply Ascii.eqb_eq in E; contradiction|].
  reflexivity.
Qed.

Lemma last_segment_app (l rest : list ascii) :
  ~ In "/"%char l -> GoPath.last_segment (l ++ "/"%char :: rest) = l.
Proof.
  induction l as [|c l IH]; intros H; [reflexivity|].
  cbn. destruct (Ascii.eqb c "/") eqn:E.
  - apply Ascii.eqb_eq in E. subst c. exfalso. apply H. left. reflexivity.
  - rewrite IH; [reflexivity|]. intros Hi. apply H. right. exact Hi.
Qed.

Lemma last_segment_all (l : list ascii) :
  ~ In "/"%char l -> GoPath.last_segment l = l.
Proof.
  induction l as [|c l IH]; intros H; [reflexivity|].
  cbn. destruct (Ascii.eqb c "/") eqn:E.
  - apply Ascii.eqb_eq in E. subst c. exfalso. apply H. left. reflexivity.
  - rewrite IH; [reflexivity|]. intros Hi. apply H. right. exact Hi.
Qed.

Lemma list_ascii_of_string_append (a b : string) :
  list_ascii_of_string (String.append a b) = list_ascii_of_string a ++ list_ascii_of_string b.
Proof. induction a as [|c a IH]; [reflexivity|]. simpl. f_equal. exact IH. Qed.

(** [path.Base] of a key [dir/name], with [name] non-empty and slash-free,
    is [name]; a non-empty key without slashes is its own base. *)
Theorem base_of_key :
  forall dir name : string,
    name <> "" -> ~ In "/"%char (list_ascii_of_string name) ->
    GoPath.base (String.append dir (String "/" name)) = name /\ GoPath.base name = name.
Proof.
  intros dir name Hne Hns.
  assert (Hl : list_ascii_of_string name <> []).
  { intros H. apply Hne. rewrite <- (string_of_list_ascii_of_string name), H. reflexivity. }
  destruct (rev (list_ascii_of_string name)) as [|c rn] eqn:Er.
  { exfalso. apply Hl. rewrite <- (rev_involutive (list_ascii_of_string name)), Er. reflexivity. }
  assert (Hc : c <> "/"%char).
  { intros ->. apply Hns. rewrite in_rev, Er. left. reflexivity. }
  assert (Hrn : ~ In "/"%char (c :: rn)).
  { rewrite <- Er. rewrite <- in_rev. exact Hns. }
  assert (Hlen : (length (list_ascii_of_string name) =? 0)%nat = false).
  { apply Nat.eqb_neq. intros H. apply Hl. destruct (list_ascii_of_string name); [reflexivity|discriminate]. }
  split; unfold GoPath.base.
  - replace (String.eqb (String.append dir (String "/" name)) "") with false
      by (destruct dir; reflexivity).
    cbn zeta. rewrite list_ascii_of_string_append. cbn [list_ascii_of_string].
    rewrite rev_app_distr. cbn [rev]. rewrite <- app_assoc, Er. cbn [app].
    rewrite drop_slashes_head by exact Hc.
    change (c :: rn ++ "/"%char :: rev (list_ascii_of_string dir))
      with ((c :: rn) ++ "/"%char :: rev (list_ascii_of_string dir)).
    rewrite last_segment_app by exact Hrn.
    rewrite <- Er, rev_involutive, Hlen. apply string_of_list_ascii_of_string.
  - apply String.eqb_neq in Hne. rewrite Hne. cbn zeta.
    rewrite Er. rewrite drop_slashes_head by exact Hc.
    rewrite last_segment_all by exact Hrn.
    rewrite <- Er, rev_involutive, Hlen. apply string_of_list_ascii_of_string.
Qed.

Lemma EstimateWalrusCost_monotone (s1 s2 e1 e2 : Z) :
  0 <= s1 <= s2 -> s2 <= 2 ^ 45 -> 0 <= e1 <= e2 -> e2 <= 2 ^ 20 ->
  EstimateWalrusCost_frost s1 e1 <= EstimateWalrusCost_frost s2 e2.
Proof.
  intros Hs Hs2 He He2.
  rewrite !EstimateWalrusCost_closed_form by lia.
  assert (A : (s1 * 5 + 67108864 + 1048575) / 1048576 <= (s2 * 5 + 67108864 + 1048575) / 1048576)
    by (apply Z.div_le_mono; lia).
  assert (B : 0 <= (s1 * 5 + 67108864 + 1048575) / 1048576) by (apply Z.div_pos; lia).
  nia.
Qed.

(** Within the same bounds, [EstimateStorageCost] equals
    [EstimateWalrusCost] from 10 MiB up; below 10 MiB it is the estimate
    for an empty object, never more than [EstimateWalrusCost] of the same
    size. *)
Theorem storage_estimate_vs_item_estimate :
  forall sizeBytes epochs : Z,
    0 <= sizeBytes <= 2 ^ 45 -> 0 <= epochs <= 2 ^ 20 ->
    (10 * 1024 * 1024 <= sizeBytes ->
     EstimateStorageCost sizeBytes epochs = EstimateWalrusCost_frost sizeBytes epochs) /\
    (sizeBytes < 10 * 1024 * 1024 ->
     EstimateStorageCost sizeBytes epochs = EstimateWalrusCost_frost 0 epochs /\
     EstimateStorageCost sizeBytes epochs <= EstimateWalrusCost_frost sizeBytes epochs).
Proof.
  intros s e Hs He. split.
  - intros Hbig. unfold EstimateStorageCost, EstimateWalrusCost_frost.
    replace (s <? 10 * 1024 * 1024) with false by (symmetry; apply Z.ltb_ge; lia).
    reflexivity.
  - intros Hsmall. rewrite EstimateStorageCost_small by exact Hsmall.
    assert (E0 : EstimateWalrusCost_frost 0 e = 704000 * e).
    { rewrite EstimateWalrusCost_closed_form by lia. reflexivity. }
    rewrite wrap64_small by (unfold two63; lia).
    split; [symmetry; exact E0|].
    rewrite <- E0. apply EstimateWalrusCost_monotone; lia.
Qed.

(** Without overflow (sizes up to 2^45 bytes, epochs up to 2^20),
    [EstimateWalrusCost] never decreases when the size or the number of
    epochs grows. *)
Theorem EstimateWalrusCost_nondecreasing :
  forall s1 s2 e1 e2 : Z,
    0 <= s1 <= s2 -> s2 <= 2 ^ 45 -> 0 <= e1 <= e2 -> e2 <= 2 ^ 20 ->
    EstimateWalrusCost_frost s1 e1 <= EstimateWalrusCost_frost s2 e2.
Proof. exact EstimateWalrusCost_monotone. Qed.

Definition sample_object : S3Object := mkObject "data/a.csv" 3 0 "etag".

Lemma base_never_empty_witness :
  job_TargetName (batch_job "bucket" 5 None sample_object) = GoPath.base (obj_Key sample_object) /\
  GoPath.base (obj_Key sample_object) <> "" /\
  (GoPath.base (obj_Key sample_object) = "/" \/
   ~ In "/"%char (list_ascii_of_string (GoPath.base (obj_Key sample_object)))).
Proof. exact (base_never_empty "bucket" 5 None sample_object). Defined.

Lemma base_of_key_witness :
  "a.csv" <> "" /\ ~ In "/"%char (list_ascii_of_string "a.csv") /\
  GoPath.base (String.append "data" (String "/" "a.csv")) = "a.csv" /\
  GoPath.base "a.csv" = "a.csv".
Proof.
  assert (H1 : "a.csv" <> "") by discriminate.
  assert (H2 : ~ In "/"%char (list_ascii_of_string "a.csv")).
  { cbn. intros H. repeat (destruct H as [H|H]; [discriminate|]). exact H. }
  split; [exact H1|]. split; [exact H2|].
  exact (base_of_key "data" "a.csv" H1 H2).
Defined.

Lemma EstimateWalrusCost_nondecreasing_witness :
  0 <= 1024 <= 1048576 /\ 1048576 <= 2 ^ 45 /\ 0 <= 1 <= 3 /\ 3 <= 2 ^ 20 /\
  EstimateWalrusCost_frost 1024 1 <= EstimateWalrusCost_frost 1048576 3.
Proof.
  split; [lia|]. split; [lia|]. split; [lia|]. split; [lia|].
  apply EstimateWalrusCost_nondecreasing; lia.
Defined.

Lemma storage_estimate_vs_item_estimate_witness :
  (0 <= 11534336 <= 2 ^ 45 /\ 0 <= 2 <= 2 ^ 20 /\ 10 * 1024 * 1024 <= 11534336 /\
   EstimateStorageCost 11534336 2 = EstimateWalrusCost_frost 11534336 2) /\
  (0 <= 1024 <= 2 ^ 45 /\ 0 <= 2 <= 2 ^ 20 /\ 1024 < 10 * 1024 * 1024 /\
   EstimateStorageCost 1024 2 = EstimateWalrusCost_frost 0 2 /\
   EstimateStorageCost 1024 2 <= EstimateWalrusCost_frost 1024 2).
Proof.
  split.
  - split; [lia|]. split; [lia|]. split; [lia|].
    apply (proj1 (storage_estimate_vs_item_estimate 11534336 2 ltac:(lia) ltac:(lia))). lia.
  - split; [lia|]. split; [lia|]. split; [lia|].
    apply (proj2 (storage_estimate_vs_item_estimate 1024 2 ltac:(lia) ltac:(lia))). lia.
Defined.

(* ------------------------------------------------------------------ *)
(** ** Single-wildcard patterns *)

Lemma split_no_star (s : string) :
  ~ In "*"%char (list_ascii_of_string s) -> GoStrings.split s "*"%char = [s].
Proof.
  induction s as [|c s IH]; intros H; [reflexivity|].
  cbn. rewrite IH by (intros Hi; apply H; right; exact Hi).
  destruct (Ascii.eqb c "*") eqn:E; [|reflexivity].
  apply Ascii.eqb_eq in E. subst c. exfalso. apply H. left. reflexivity.
Qed.

Lemma split_one_star (p s : string) :
  ~ In "*"%char (list_ascii_of_string p) -> ~ In "*"%char (list_ascii_of_string s) ->
  GoStrings.split (String.append p (String "*" s)) "*"%char = [p; s].
Proof.
  intros Hp Hs. induction p as [|c p IH].
  - simpl. rewrite split_no_star by exact Hs. reflexivity.
  - simpl.
    rewrite IH by (intros Hi; apply Hp; right; exact Hi).
    destruct (Ascii.eqb c "*") eqn:E; [|reflexivity].
    apply Ascii.eqb_eq in E. subst c. exfalso. apply Hp. left. reflexivity.
Qed.

Lemma hasSuffix_empty (t : string) : GoStrings.hasSuffix t "" = true.
Proof.
  unfold GoStrings.hasSuffix. cbn [String.length].
  assert (H : forall n u, substring n 0 u = ""%string).
  { induction n as [|n IH]; intros u; destruct u; cbn; try reflexivity. apply IH. }
  rewrite H. destruct (String.length t); reflexivity.
Qed.

Lemma containsChar_true_of_in (s : string) (c : ascii) :
  In c (list_ascii_of_string s) -> GoStrings.containsChar s c = true.
Proof.
  intros H. destruct (GoStrings.containsChar s c) eqn:E; [reflexivity|].
  apply containsChar_false_iff in E. contradiction.
Qed.

(** A pattern with exactly one ['*'], [p*s], matches a key exactly when
    the key starts with [p] and ends with [s]; the two may overlap, and
    ["*"] matches every key. *)
Theorem matchPattern_single_star :
  forall text p s : string,
    ~ In "*"%char (list_ascii_of_string p) -> ~ In "*"%char (list_ascii_of_string s) ->
    matchPattern text (String.append p (String "*" s))
    = GoStrings.hasPrefix text p && GoStrings.hasSuffix text s.
Proof.
  intros text p s Hp Hs. unfold matchPattern.
  rewrite containsChar_true_of_in
    by (rewrite list_ascii_of_string_append; apply in_or_app; right; left; reflexivity).
  rewrite split_one_star by assumption.
  destruct (String.eqb p "") eqn:Ep; destruct (String.eqb s "") eqn:Es; cbn [negb andb].
  - apply String.eqb_eq in Ep, Es. subst p s.
    rewrite hasPrefix_empty, hasSuffix_empty. reflexivity.
  - apply String.eqb_eq in Ep. subst p. rewrite hasPrefix_empty.
    destruct (GoStrings.hasSuffix text s); reflexivity.
  - apply String.eqb_eq in Es. subst s. rewrite hasSuffix_empty.
    destruct (GoStrings.hasPrefix text p); reflexivity.
  - destruct (GoStrings.hasPrefix text p); destruct (GoStrings.hasSuffix text s); reflexivity.
Qed.

Lemma matchPattern_single_star_witness :
  ~ In "*"%char (list_ascii_of_string "data/") /\ ~ In "*"%char (list_ascii_of_string ".csv") /\
  matchPattern "data/a.csv" (String.append "data/" (String "*" ".csv"))
  = GoStrings.hasPrefix "data/a.csv" "data/" && GoStrings.hasSuffix "data/a.csv" ".csv".
Proof.
  assert (H1 : ~ In "*"%char (list_ascii_of_string "data/")).
  { cbn. intros H. repeat (destruct H as [H|H]; [discriminate|]). exact H. }
  assert (H2 : ~ In "*"%char (list_ascii_of_string ".csv")).
  { cbn. intros H. repeat (destruct H as [H|H]; [discriminate|]). exact H. }
  split; [exact H1|]. split; [exact H2|].
  exact (matchPattern_single_star "data/a.csv" "data/" ".csv" H1 H2).
Defined.

(* ------------------------------------------------------------------ *)
(** ** Index writes of a transfer and of [SimpleFs.Upload] *)

(** [transferSingleFile] writes an index entry exactly when the transfer
    succeeds and a [SimpleFs] is attached; the entry carries the result's
    blob id and expiry epoch, the current time and the downloaded size,
    and is stored under the job's target name, with [.sealed] appended
    when encryption is enabled, while the result keeps the plain name. *)
Theorem transferSingleFile_index_entry :
  forall (fs : bool) (now : Z) (job : TransferJob) (dl : DownloadOutcome) (store : HttpOutcome),
    let r := fst (transferSingleFile fs now job dl store) in
    let w := snd (transferSingleFile fs now job dl store) in
    (w <> None <-> res_Success r = true /\ fs = true) /\
    (forall name entry, w = Some (name, entry) ->
       fe_BlobID entry = res_BlobID r /\
       fe_ExpiryEpoch entry = match res_ExpiryEpoch r with Some e => wrap64 e | None => 0 end /\
       fe_ModTime entry = now /\
       (exists reader, dl = DlOk reader (fe_Size entry)) /\
       res_TargetName r = job_TargetName job /\
       name = (if match job_EncryptionConfig job with Some c => Enabled c | None => false end
               then job_TargetName job +:+ ".sealed" else job_TargetName job)).
Proof.
  intros fs now job dl store r w. subst r w.
  assert (Hfail : forall e, (None <> (None : option (string * SimpleFileEntry)) <->
             res_Success (failed_result job e) = true /\ fs = true) /\
           (forall name entry, (None : option (string * SimpleFileEntry)) = Some (name, entry) -> False)).
  { intros e. split; [split; [intros H; contradiction H; reflexivity | intros [H _]; discriminate]|].
    intros ? ? H; discriminate. }
  unfold transferSingleFile.
  destruct dl as [|reader size].
  { destruct (Hfail ErrDownload) as [A B]. split; [exact A|]. intros n e H. destruct (B n e H). }
  destruct ((job_Size job <? 100 * 1024 * 1024) && st_fails reader).
  { destruct (Hfail ErrBuffer) as [A B]. split; [exact A|]. intros n e H. destruct (B n e H). }
  destruct ((match job_EncryptionConfig job with Some c => Enabled c | None => false end)
            && (negb (job_Size job <? 100 * 1024 * 1024) && st_fails reader)).
  { destruct (Hfail ErrReadForEncryption) as [A B]. split; [exact A|]. intros n e H. destruct (B n e H). }
  destruct (negb (match job_EncryptionConfig job with Some c => Enabled c | None => false end)
            && (negb (job_Size job <? 100 * 1024 * 1024) && st_fails reader)).
  { destruct (Hfail ErrReadData) as [A B]. split; [exact A|]. intros n e H. destruct (B n e H). }
  destruct (StoreBlob (Z.of_nat (length (st_data reader))) store) as [up|e].
  2: { destruct (Hfail (ErrUpload e)) as [A B]. split; [exact A|]. intros n e' H. destruct (B n e' H). }
  cbn [fst snd res_Success res_BlobID res_ExpiryEpoch res_TargetName].
  destruct fs.
  - split; [split; [intros _; split; reflexivity | intros _; discriminate]|].
    intros n e H. injection H as <- <-. cbn.
    split; [reflexivity|]. split; [reflexivity|]. split; [reflexivity|].
    split; [exists reader; reflexivity|]. split; reflexivity.
  - split; [split; [intros H; contradiction H; reflexivity | intros [_ H]; discriminate]|].
    intros n e H; discriminate.
Qed.

(** After a successful [Upload] of [name], [Download name] retrieves
    exactly the blob id the upload returned, which is non-empty, and every
    other name downloads as before. *)
Theorem Upload_then_Download :
  forall (idx : option SimpleFileIndex) (disk : Disk) (name : string) (data : list Byte.byte)
         (now : Z) (store : HttpOutcome) (write : WriteOutcome)
         (idx' : option SimpleFileIndex) (disk' : Disk) (resp : StoreResponse),
    Upload idx disk name data now store write = Some (idx', disk', inl resp) ->
    BlobID resp <> "" /\
    (forall fetch, Download idx' name fetch
       = Some (match fst (RetrieveBlob (fetch (BlobID resp))) with
               | inl d => inl d | inr e => inr (ErrRetrieve e) end)) /\
    (forall other fetch, other <> name -> Download idx' other fetch = Download idx other fetch).
Proof.
  intros idx disk name data now store write idx' disk' resp.
  unfold Upload.
  destruct (StoreBlob (Z.of_nat (length data)) store) as [up|e] eqn:E; [|discriminate].
  destruct idx as [[[files|]]|]; [|discriminate|discriminate].
  destruct (SaveIndex _ write disk) as [d b].
  intros H; injection H as <- <- <-.
  split; [exact (StoreBlob_blobid _ _ _ E)|]. split.
  - intros fetch. unfold Download. cbn [Files]. rewrite (lookup_insert_eq (M := gmap string) files name). cbn [fe_BlobID]. destruct (fst (RetrieveBlob _)); reflexivity.
  - intros other fetch Hne. unfold Download. cbn [Files].
    rewrite (lookup_insert_ne (M := gmap string) files name other) by congruence. reflexivity.
Qed.

(** A failed store leaves the index and the index file unchanged and
    returns the error; after a successful store, the index and the result
    of [Upload] do not depend on whether writing the index file fails. *)
Theorem Upload_store_failure_and_save :
  forall (idx : option SimpleFileIndex) (disk : Disk) (name : string) (data : list Byte.byte)
         (now : Z) (store : HttpOutcome) (write : WriteOutcome),
    (forall e, StoreBlob (Z.of_nat (length data)) store = inr e ->
       Upload idx disk name data now store write = Some (idx, disk, inr e)) /\
    (forall resp, StoreBlob (Z.of_nat (length data)) store = inl resp ->
       forall write', option_map (fun o => (fst (fst o), snd o))
                        (Upload idx disk name data now store write)
                    = option_map (fun o => (fst (fst o), snd o))
                        (Upload idx disk name data now store write')).
Proof.
  intros idx disk name data now store write. split.
  - intros e E. unfold Upload. rewrite E. reflexivity.
  - intros resp E write'. unfold Upload. rewrite E.
    destruct idx as [[[files|]]|]; [|reflexivity|reflexivity].
    destruct (SaveIndex _ write disk), (SaveIndex _ write' disk). reflexivity.
Qed.

Lemma marshal_files_id (m : FileMap) :
  map_Forall (fun k e => utf8_coerce k = k /\ utf8_coerce (fe_BlobID e) = fe_BlobID e) m ->
  marshal_files m = m.
Proof.
  intros Hm. unfold marshal_files.
  set (l := merge_sort key_le (map_to_list m)).
  assert (Hp : l ≡ₚ map_to_list m) by apply merge_sort_Permutation.
  assert (Hl : map (fun kv => (utf8_coerce kv.1, encode_entry kv.2)) l = l).
  { rewrite <- (map_id l) at 2. apply map_ext_in. intros [k e] Hin.
    apply (Permutation_in _ Hp), list_elem_of_In, elem_of_map_to_list in Hin.
    destruct (Hm k e Hin) as [Hk He]. cbn. rewrite Hk.
    destruct e as [b sz t ex]. unfold encode_entry. cbn in *. rewrite He. reflexivity. }
  rewrite Hl.
  assert (Hp' : rev l ≡ₚ map_to_list m) by (rewrite <- Hp; symmetry; apply Permutation_rev).
  transitivity (list_to_map (M := FileMap) (map_to_list m)); [|apply list_to_map_to_list].
  apply list_to_map_proper; [|exact Hp']. rewrite Hp'. apply NoDup_fst_map_to_list.
Qed.

(** When the index file is written, a fresh [SimpleFs] that loads it gets
    exactly the index [Upload] left in memory, with no error, provided
    the entries survive the encoding: the uploaded name, the blob id and
    the other entries' keys and blob ids are valid UTF-8 and every
    [ModTime] lies in years 0..9999. *)
Theorem Upload_persists :
  forall (files : FileMap) (disk : Disk) (name : string) (data : list Byte.byte)
         (now : Z) (store : HttpOutcome)
         (idx' : option SimpleFileIndex) (disk' : Disk) (resp : StoreResponse),
    Upload (Some (mkIndex (Some files))) disk name data now store WriteOk
      = Some (idx', disk', inl resp) ->
    utf8_coerce name = name -> utf8_coerce (BlobID resp) = BlobID resp ->
    modtime_marshals now = true ->
    map_Forall (fun k e => utf8_coerce k = k /\ utf8_coerce (fe_BlobID e) = fe_BlobID e /\
                           modtime_marshals (fe_ModTime e) = true) (delete name files) ->
    LoadIndex disk' NewSimpleFs_index = (disk', idx', None).
Proof.
  intros files disk name data now store idx' disk' resp H Hname Hblob Hnow Hfiles.
  unfold Upload in H.
  destruct (StoreBlob (Z.of_nat (length data)) store) as [up|e]; [|discriminate].
  set (entry := mkEntry (BlobID up) (Z.of_nat (length data)) now
                  (match EndEpoch up with Some e => wrap64 e | None => 0 end)) in H.
  set (m := <[name := entry]> files) in H.
  destruct (SaveIndex (Some (mkIndex (Some m))) WriteOk disk) as [d b] eqn:ES.
  injection H as <- <- <-.
  assert (Hall : map_Forall (fun k e => utf8_coerce k = k /\ utf8_coerce (fe_BlobID e) = fe_BlobID e /\
                                        modtime_marshals (fe_ModTime e) = true) m).
  { unfold m. rewrite <- (insert_delete_eq (M := gmap string) files name entry).
    apply map_Forall_insert_2; [|exact Hfiles].
    split; [exact Hname|]. split; [exact Hblob|exact Hnow]. }
  assert (Hf : forallb (fun kv => modtime_marshals (fe_ModTime kv.2)) (map_to_list m) = true).
  { apply forallb_forall. intros [k e] Hin.
    apply list_elem_of_In, elem_of_map_to_list in Hin. exact (proj2 (proj2 (Hall k e Hin))). }
  unfold SaveIndex, marshal_index in ES. cbn [Files] in ES. rewrite Hf in ES.
  injection ES as <- <-.
  rewrite marshal_files_id by (intros k e Hk; destruct (Hall k e Hk) as (A & B & _); split; assumption).
  cbn. do 4 f_equal. f_equal. apply map_union_empty.
Qed.

Definition sealed_job : TransferJob :=
  mkJob "bucket" "data/a.csv" 3 "a.csv" 5 (Some (mkEncryption true)).

Lemma transferSingleFile_index_entry_witness :
  snd (transferSingleFile true 0 sealed_job (DlOk ok_reader 3) (created_body "b"))
    = Some ("a.csv.sealed", mkEntry "b" 3 0 0) /\
  res_TargetName (fst (transferSingleFile true 0 sealed_job (DlOk ok_reader 3) (created_body "b")))
    = "a.csv" /\
  (snd (transferSingleFile true 0 sealed_job (DlOk ok_reader 3) (created_body "b")) <> None <->
   res_Success (fst (transferSingleFile true 0 sealed_job (DlOk ok_reader 3) (created_body "b")))
     = true /\ true = true).
Proof.
  pose proof (transferSingleFile_index_entry true 0 sealed_job (DlOk ok_reader 3)
                (created_body "b")) as [A B].
  split; [reflexivity|].
  split; [|exact A].
  destruct (B "a.csv.sealed" (mkEntry "b" 3 0 0) eq_refl) as (_ & _ & _ & _ & H & _).
  exact H.
Defined.

(** The index after uploading [ok_reader]'s bytes as "a.csv" at time 0,
    and the document [SaveIndex] writes for it. *)
Definition uploaded_index : option SimpleFileIndex :=
  Some (mkIndex (Some (<["a.csv" := mkEntry "b" 3 0 0]> ∅))).

Definition uploaded_doc : IndexDoc :=
  DocObject (Some (Some (<["a.csv" := mkEntry "b" 3 0 0]> ∅))) false.

Lemma Upload_then_Download_witness :
  Upload NewSimpleFs_index FileMissing "a.csv" (st_data ok_reader) 0 (created_body "b") WriteOk
    = Some (uploaded_index, FileContents uploaded_doc, inl ok_receipt) /\
  BlobID ok_receipt <> "" /\
  (forall fetch, Download uploaded_index "a.csv" fetch
     = Some (match fst (RetrieveBlob (fetch (BlobID ok_receipt))) with
             | inl d => inl d | inr e => inr (ErrRetrieve e) end)) /\
  (forall other fetch, other <> "a.csv" ->
     Download uploaded_index other fetch = Download NewSimpleFs_index other fetch).
Proof.
  assert (H : Upload NewSimpleFs_index FileMissing "a.csv" (st_data ok_reader) 0
                (created_body "b") WriteOk
              = Some (uploaded_index, FileContents uploaded_doc, inl ok_receipt))
    by reflexivity.
  split; [exact H|]. exact (Upload_then_Download _ _ _ _ _ _ _ _ _ _ H).
Defined.

Lemma Upload_store_failure_and_save_witness :
  Upload NewSimpleFs_index FileMissing "a.csv" (st_data ok_reader) 0 (HttpErr "refused") WriteOk
    = Some (NewSimpleFs_index, FileMissing, inr (ErrUploadingBlob "refused")) /\
  option_map (fun o => (fst (fst o), snd o))
    (Upload NewSimpleFs_index FileMissing "a.csv" (st_data ok_reader) 0 (created_body "b") WriteOk)
  = option_map (fun o => (fst (fst o), snd o))
    (Upload NewSimpleFs_index FileMissing "a.csv" (st_data ok_reader) 0 (created_body "b")
       (WriteFailed FileUnreadable)).
Proof.
  split.
  - apply (proj1 (Upload_store_failure_and_save NewSimpleFs_index FileMissing "a.csv"
                    (st_data ok_reader) 0 (HttpErr "refused") WriteOk)).
    reflexivity.
  - apply (proj2 (Upload_store_failure_and_save NewSimpleFs_index FileMissing "a.csv"
                    (st_data ok_reader) 0 (created_body "b") WriteOk) ok_receipt).
    reflexivity.
Defined.

Lemma Upload_persists_witness :
  Upload NewSimpleFs_index FileMissing "a.csv" (st_data ok_reader) 0 (created_body "b") WriteOk
    = Some (uploaded_index, FileContents uploaded_doc, inl ok_receipt) /\
  utf8_coerce "a.csv" = "a.csv" /\ utf8_coerce (BlobID ok_receipt) = BlobID ok_receipt /\
  modtime_marshals 0 = true /\
  map_Forall (fun k e => utf8_coerce k = k /\ utf8_coerce (fe_BlobID e) = fe_BlobID e /\
                         modtime_marshals (fe_ModTime e) = true) (delete "a.csv" (∅ : FileMap)) /\
  LoadIndex (FileContents uploaded_doc) NewSimpleFs_index
    = (FileContents uploaded_doc, uploaded_index, None).
Proof.
  assert (H : Upload NewSimpleFs_index FileMissing "a.csv" (st_data ok_reader) 0
                (created_body "b") WriteOk
              = Some (uploaded_index, FileContents uploaded_doc, inl ok_receipt))
    by reflexivity.
  assert (H1 : utf8_coerce "a.csv" = "a.csv") by reflexivity.
  assert (H2 : utf8_coerce (BlobID ok_receipt) = BlobID ok_receipt) by reflexivity.
  assert (H3 : modtime_marshals 0 = true) by reflexivity.
  assert (H4 : map_Forall (fun k e => utf8_coerce k = k /\ utf8_coerce (fe_BlobID e) = fe_BlobID e /\
                                      modtime_marshals (fe_ModTime e) = true)
                 (delete "a.csv" (∅ : FileMap)))
    by (intros k e Hk; vm_compute in Hk; discriminate Hk).
  split; [exact H|]. split; [exact H1|]. split; [exact H2|]. split; [exact H3|]. split; [exact H4|].
  exact (Upload_persists ∅ _ _ _ _ _ _ _ _ H H1 H2 H3 H4).
Defined.

(* ------------------------------------------------------------------ *)
(** ** Results and bytes of the worker pool *)

(** At every point of a batch, the results' source keys form a
    sub-multiset of the jobs' keys; once every worker has exited without
    [ctx] being cancelled, they are exactly the jobs' keys: each job
    produced exactly one result. *)
Theorem batch_results_match_jobs :
  forall (concurrency : Z) (jobs : list TransferJob) (p : Batch.Pool),
    rtc (Batch.step (Z.to_nat (Batch.clamp concurrency))) (Batch.start concurrency jobs) p ->
    map res_SourceKey (Batch.Results (fst p)) ⊆+ map job_Key jobs /\
    (Batch.drained p -> Batch.cancelled (fst p) = false ->
     map res_SourceKey (Batch.Results (fst p)) ≡ₚ map job_Key jobs).
Proof.
  intros concurrency jobs p Hr.
  destruct (BatchKeys.Inv2_reachable _ jobs _ _ (BatchKeys.Inv2_start concurrency jobs) Hr)
    as (_ & _ & Hsub & Hperm & Hdone & Hne).
  unfold BatchKeys.keys in *.
  split.
  - etransitivity; [|exact Hsub].
    etransitivity; [|apply submseteq_inserts_l; reflexivity].
    apply submseteq_inserts_l. reflexivity.
  - intros Hd Hc.
    assert (HF : flat_map BatchKeys.inflight_keys (snd p) = []).
    { clear -Hd. unfold Batch.drained in Hd. induction Hd as [|w ws Hw _ IH]; [reflexivity|].
      subst w. exact IH. }
    assert (HQ : Batch.jobChan (fst p) = []).
    { apply Hdone; [exact Hc|]. unfold Batch.drained in Hd.
      destruct (snd p) as [|w ws] eqn:E; [contradiction|].
      inversion Hd; subst. left. reflexivity. }
    specialize (Hperm Hc). rewrite HF, HQ in Hperm. exact Hperm.
Qed.

(** Once every worker has exited, the [int64] counter [ProcessedBytes] is
    the total size of the successful results modulo 2^64 (two's-complement
    wrap-around of [atomic.AddInt64]), and exactly that total when it lies
    in 0..2^63-1. *)
Theorem batch_processed_bytes :
  forall (concurrency : Z) (jobs : list TransferJob) (p : Batch.Pool),
    rtc (Batch.step (Z.to_nat (Batch.clamp concurrency))) (Batch.start concurrency jobs) p ->
    Batch.drained p ->
    Batch.ProcessedBytes (fst p) = wrap64 (BatchKeys.success_bytes (Batch.Results (fst p))) /\
    (0 <= BatchKeys.success_bytes (Batch.Results (fst p)) < two63 ->
     Batch.ProcessedBytes (fst p) = BatchKeys.success_bytes (Batch.Results (fst p))).
Proof.
  intros concurrency jobs p Hr Hd.
  destruct (BatchKeys.Inv2_reachable _ jobs _ _ (BatchKeys.Inv2_start concurrency jobs) Hr)
    as (_ & HB & _).
  rewrite (BatchFacts.sumw_done BatchKeys.pending_bytes _ eq_refl Hd), Z.add_0_r in HB.
  split; [exact HB|]. intros Hb. rewrite HB. apply wrap64_small. exact Hb.
Qed.

(** The pool after one worker has transferred [sample_job] successfully. *)
Definition success_result : TransferResult :=
  fst (transferSingleFile false 0 sample_job (DlOk ok_reader 3) (created_body "b")).

Definition drained_pool_ok : Batch.Pool :=
  (Batch.mkShared [] 0 false 1 3 0 [success_result], [Batch.WDone]).

Lemma drained_pool_ok_reachable :
  rtc (Batch.step (Z.to_nat (Batch.clamp 1))) (Batch.start 1 [sample_job]) drained_pool_ok.
Proof.
  unfold Batch.start. cbn.
  pool_step 0%nat ltac:(apply Batch.ws_recv; reflexivity).
  pool_step 0%nat ltac:(apply Batch.ws_acquire; cbn; lia).
  pool_step 0%nat ltac:(apply (Batch.ws_transfer _ _ _ false 0 (DlOk ok_reader 3) (created_body "b"))).
  pool_step 0%nat ltac:(apply Batch.ws_processed).
  pool_step 0%nat ltac:(apply Batch.ws_success; reflexivity).
  pool_step 0%nat ltac:(apply Batch.ws_append).
  pool_step 0%nat ltac:(apply Batch.ws_release).
  pool_step 0%nat ltac:(apply Batch.ws_recv_closed; reflexivity).
  apply rtc_refl.
Qed.

Lemma batch_results_match_jobs_witness :
  rtc (Batch.step (Z.to_nat (Batch.clamp 1))) (Batch.start 1 [sample_job]) drained_pool_ok /\
  Batch.drained drained_pool_ok /\ Batch.cancelled (fst drained_pool_ok) = false /\
  map res_SourceKey (Batch.Results (fst drained_pool_ok)) ≡ₚ map job_Key [sample_job].
Proof.
  assert (Hd : Batch.drained drained_pool_ok) by (repeat constructor).
  split; [exact drained_pool_ok_reachable|]. split; [exact Hd|]. split; [reflexivity|].
  exact (proj2 (batch_results_match_jobs 1 [sample_job] drained_pool_ok
                  drained_pool_ok_reachable) Hd eq_refl).
Defined.

Lemma batch_processed_bytes_witness :
  rtc (Batch.step (Z.to_nat (Batch.clamp 1))) (Batch.start 1 [sample_job]) drained_pool_ok /\
  Batch.drained drained_pool_ok /\
  (0 <= BatchKeys.success_bytes (Batch.Results (fst drained_pool_ok)) < two63) /\
  Batch.ProcessedBytes (fst drained_pool_ok) = BatchKeys.success_bytes (Batch.Results (fst drained_pool_ok)).
Proof.
  assert (Hd : Batch.drained drained_pool_ok) by (repeat constructor).
  assert (Hb : 0 <= BatchKeys.success_bytes (Batch.Results (fst drained_pool_ok)) < two63)
    by (vm_compute; split; [intro E; discriminate E | reflexivity]).
  split; [exact drained_pool_ok_reachable|]. split; [exact Hd|]. split; [exact Hb|].
  exact (proj2 (batch_processed_bytes 1 [sample_job] drained_pool_ok drained_pool_ok_reachable Hd) Hb).
Defined.
